(** * IC10 extension: the device-hash generators

    A shallow embedding of the two build-time scripts of the repository

    - [generate_hashes.py]: reads [english.xml], and writes the sorted text
      reference [stationpedia.txt] (identifier, signed CRC-32, hex CRC-32,
      display value);
    - [update_device_hashes.py]: reads [Stationpedia.json] and writes the
      Rust lookup tables [DEVICE_NAME_TO_HASH] and [HASH_TO_DISPLAY_NAME].

    Python values are modelled as follows.  A [str] is the list of its
    Unicode code points (integers), an [int] is a [Z] (Python integers are
    unbounded), [bytes] is a list of integers in [0, 255], a [dict] whose
    keys are always visited through [sorted(...)] is a [gmap], and a run of
    a script is a function from the state of the source file to the console
    output, the new state of the destination file and the way the process
    ended. *)

From Stdlib Require Import ZArith List Lia Bool String Ascii.
From Stdlib Require Import DecimalString HexadecimalString.
From Stdlib Require DecimalPos DecimalZ HexadecimalPos HexadecimalN.
From stdpp Require Import base option list gmap sorting lexico.

Local Open Scope Z_scope.

(** ** Python built-ins used by the scripts *)

Module Py.

(** A Python [str]: the sequence of its code points. *)
Abbreviation str := (list Z).

(** An ASCII literal of the scripts, as a [str]. *)
Definition lit (s : string) : str :=
  map (fun a => Z.of_N (N_of_ascii a)) (list_ascii_of_string s).

(** [bool(s)] of a [str]: the empty string is falsy. *)
Definition truthy (s : str) : bool :=
  match s with [] => false | _ :: _ => true end.

(** *** [str.encode('utf-8')]

    One code point gives one to four bytes; a surrogate (or a number
    that is no code point at all) raises [UnicodeEncodeError], which is
    [None] here. *)
Definition utf8_encode_char (c : Z) : option (list Z) :=
  if c <? 0 then None
  else if c <? 0x80 then Some [c]
  else if c <? 0x800 then
    Some [Z.lor 0xC0 (Z.shiftr c 6);
          Z.lor 0x80 (Z.land c 0x3F)]
  else if (0xD800 <=? c) && (c <=? 0xDFFF) then None
  else if c <? 0x10000 then
    Some [Z.lor 0xE0 (Z.shiftr c 12);
          Z.lor 0x80 (Z.land (Z.shiftr c 6) 0x3F);
          Z.lor 0x80 (Z.land c 0x3F)]
  else if c <=? 0x10FFFF then
    Some [Z.lor 0xF0 (Z.shiftr c 18);
          Z.lor 0x80 (Z.land (Z.shiftr c 12) 0x3F);
          Z.lor 0x80 (Z.land (Z.shiftr c 6) 0x3F);
          Z.lor 0x80 (Z.land c 0x3F)]
  else None.

Definition encode_utf8 (s : str) : option (list Z) :=
  @concat Z <$> mapM utf8_encode_char s.

(** A code point that [encode] accepts: a Unicode scalar value. *)
Definition scalar_value (c : Z) : Prop :=
  0 <= c <= 0x10FFFF /\ ~ (0xD800 <= c <= 0xDFFF).

(** A value of type [bytes] holds octets. *)
Definition octet (b : Z) : Prop := 0 <= b < 256.

(** *** [str(n)] and [hex(n)] of an [int] *)
Definition str_of_int (n : Z) : str :=
  lit (DecimalString.NilZero.string_of_int (Z.to_int n)).

Definition hex_digits (n : Z) : str :=
  lit (HexadecimalString.NilZero.string_of_uint (N.to_hex_uint (Z.to_N n))).

Definition hex (n : Z) : str :=
  if n <? 0 then lit "-0x" ++ hex_digits (- n) else lit "0x" ++ hex_digits n.

(** *** [s.replace(old, new)]

    The occurrences of [old] are found from left to right and do not
    overlap: after a match the scan resumes behind it.  [skip] counts the
    characters of a match that are still to be passed over.  ([old] is
    never empty in the scripts.) *)
Fixpoint startswith (s p : str) {struct p} : bool :=
  match p, s with
  | [], _ => true
  | _ :: _, [] => false
  | a :: p', b :: s' => (a =? b) && startswith s' p'
  end.

(** [p in s]: [p] occurs in [s] as a substring. *)
Fixpoint contains (s p : str) : bool :=
  startswith s p
  || match s with
     | [] => false
     | _ :: t => contains t p
     end.

Fixpoint replace_from (old new : str) (skip : nat) (s : str) : str :=
  match s with
  | [] => []
  | c :: t =>
      match skip with
      | S k => replace_from old new k t
      | O =>
          if startswith s old
          then new ++ replace_from old new (Nat.pred (length old)) t
          else c :: replace_from old new 0 t
      end
  end.

Definition replace (s old new : str) : str := replace_from old new 0 s.

(** *** [s.strip()]

    The characters for which [str.isspace] holds. *)
Definition isspace (c : Z) : bool :=
  ((0x09 <=? c) && (c <=? 0x0D)) || ((0x1C <=? c) && (c <=? 0x20))
  || (c =? 0x85) || (c =? 0xA0) || (c =? 0x1680)
  || ((0x2000 <=? c) && (c <=? 0x200A))
  || (c =? 0x2028) || (c =? 0x2029) || (c =? 0x202F)
  || (c =? 0x205F) || (c =? 0x3000).

Fixpoint lstrip (s : str) : str :=
  match s with
  | [] => []
  | c :: t => if isspace c then lstrip t else s
  end.

Definition rstrip (s : str) : str := rev (lstrip (rev s)).

Definition strip (s : str) : str := rstrip (lstrip s).

(** *** Comparison of strings and [sorted]

    [a < b] on [str] compares code points, a proper prefix being
    smaller.  [sorted] is a stable merge sort that only asks [<]: of two
    runs it takes the element of the right one only when it is strictly
    smaller. *)
Fixpoint str_ltb (a b : str) : bool :=
  match a, b with
  | _, [] => false
  | [], _ :: _ => true
  | x :: a', y :: b' => (x <? y) || ((x =? y) && str_ltb a' b')
  end.

Definition str_le : relation str := fun a b => str_ltb b a = false.

#[global] Instance str_le_dec : RelDecision str_le :=
  fun a b => decide (str_ltb b a = false).

Definition sorted_str (l : list str) : list str := merge_sort str_le l.

Definition sorted_int (l : list Z) : list Z := merge_sort Z.le l.

(** Characters used by the formatted strings. *)
Definition dquote : str := [34].
Definition nl : str := [10].

End Py.

(** ** [zlib.crc32]

    The byte-at-a-time loop of zlib's [crc32], over the table that its
    [make_crc_table] builds from the reflected polynomial. *)

Module Zlib.

Definition POLY : Z := 0xedb88320.

(** One round of [make_crc_table]:
    [c = c & 1 ? POLY ^ (c >> 1) : c >> 1]. *)
Definition table_round (c : Z) : Z :=
  if Z.testbit c 0 then Z.lxor POLY (Z.shiftr c 1) else Z.shiftr c 1.

Definition table_entry (n : Z) : Z := Nat.iter 8 table_round n.

Definition crc_table : list Z :=
  map (fun n => table_entry (Z.of_nat n)) (seq 0 256).

(** [crc = crc_table[(crc ^ *buf++) & 0xff] ^ (crc >> 8)] *)
Definition crc_byte (crc b : Z) : Z :=
  Z.lxor (nth (Z.to_nat (Z.land (Z.lxor crc b) 0xff)) crc_table 0)
         (Z.shiftr crc 8).

(** [zlib.crc32(data)], with the default starting value [0]. *)
Definition crc32 (data : list Z) : Z :=
  Z.lxor (fold_left crc_byte data 0xffffffff) 0xffffffff.

End Zlib.

(** ** CRC-32/IEEE, as the specification names it

    The reference, bit-serial formulation of the checksum: register
    preset to all ones, every message bit fed least significant bit first
    through the reflected IEEE 802.3 polynomial, and the register
    complemented at the end. *)

Module Crc32Ieee.

Definition poly_reflected : Z := 0xEDB88320.

(** Feed message bit number [i] of byte [b] into the register. *)
Definition feed_bit (b : Z) (crc : Z) (i : nat) : Z :=
  let fb := xorb (Z.testbit crc 0) (Z.testbit b (Z.of_nat i)) in
  let crc' := Z.shiftr crc 1 in
  if fb then Z.lxor crc' poly_reflected else crc'.

Definition feed_byte (crc b : Z) : Z :=
  fold_left (feed_bit b) (seq 0 8) crc.

Definition checksum (msg : list Z) : Z :=
  Z.lxor (fold_left feed_byte msg 0xFFFFFFFF) 0xFFFFFFFF.

End Crc32Ieee.

(** ** [generate_hashes.py]: the text reference

    The run is modelled from step 1 of the script on (the prompt that
    optionally copies [english.xml] from the game files only decides which
    file is parsed). *)

Module GenerateHashes.
Import Py.

(** A [<RecordThing>] element: the text of its [<Key>] and [<Value>]
    children, [None] when the child is missing. *)
Record record_thing := RecordThing {
  Key : option str;
  Value : option str
}.

(** What [ET.parse(input_filename)] finds. *)
Inductive source :=
| Absent
| Malformed
| Parsed (things : list record_thing).

Inductive exn :=
| ParseError | TypeError | AttributeError | KeyError | UnicodeEncodeError.

(** How the process ends: it runs to the last line, it calls [exit()],
    or an exception escapes. *)
Inductive outcome := Completed | Exited | Raised (e : exn).

Inductive message := NotFoundMessage | SuccessMessage.

Record result := Result {
  console : list message;
  out_file : option str;
  ended : outcome
}.

(** [d[t.findtext('./Key')] = t.findtext('./Value', '')] *)
Definition store_thing (d : gmap (option str) str) (t : record_thing)
  : gmap (option str) str :=
  <[ Key t := default [] (Value t) ]> d.

Definition load (things : list record_thing) : gmap (option str) str :=
  fold_left store_thing things ∅.

(** [zlib.crc32(prefab_name.encode('utf-8'))] *)
Definition unsigned_hash (prefab_name : str) : option Z :=
  Zlib.crc32 <$> encode_utf8 prefab_name.

(** [(unsigned_hash ^ 0x80000000) - 0x80000000] *)
Definition to_signed (unsigned_hash : Z) : Z :=
  Z.lxor unsigned_hash 0x80000000 - 0x80000000.

Definition signed_hash (prefab_name : str) : option Z :=
  to_signed <$> unsigned_hash prefab_name.

(** [f'"{prefab_name}" {signed_hash} {hex_hash} "{display_name}"\n'] *)
Definition text_line (prefab_name : str) (unsigned : Z) (display_name : str)
  : str :=
  dquote ++ prefab_name ++ dquote ++ lit " "
    ++ str_of_int (to_signed unsigned) ++ lit " "
    ++ hex unsigned ++ lit " "
    ++ dquote ++ display_name ++ dquote ++ nl.

(** The body of the [with] block: one [write] per name; an exception
    leaves what was written so far in the file. *)
Fixpoint write_entries (d : gmap (option str) str) (names : list str)
    (written : str) : str * outcome :=
  match names with
  | [] => (written, Completed)
  | prefab_name :: rest =>
      match encode_utf8 prefab_name with
      | None => (written, Raised UnicodeEncodeError)
      | Some bytes =>
          let unsigned_hash := Zlib.crc32 bytes in
          match d !! Some prefab_name with
          | None => (written, Raised KeyError)
          | Some display_name =>
              let line := text_line prefab_name unsigned_hash display_name in
              (* the file is opened with [encoding='utf-8'] *)
              match encode_utf8 line with
              | None => (written, Raised UnicodeEncodeError)
              | Some _ => write_entries d rest (written ++ line)
              end
          end
      end
  end.

(** [sorted(d.keys())].  A key [None] (a record without [<Key>]) cannot
    be compared with a [str]; when it is the only key, [sorted] returns
    it and [None.encode] fails. *)
Definition sorted_keys (d : gmap (option str) str)
  : list str + exn :=
  let keys := (map_to_list d).*1 in
  match mapM id keys with
  | Some names => inl (sorted_str names)
  | None => inr (match keys with [_] => AttributeError | _ => TypeError end)
  end.

Definition run (src : source) (old_out : option str) : result :=
  match src with
  | Absent =>
      (* [except FileNotFoundError: print(...); exit()] *)
      Result [NotFoundMessage] old_out Exited
  | Malformed => Result [] old_out (Raised ParseError)
  | Parsed things =>
      let d := load things in
      (* [open(output_filename, 'w')] truncates the file *)
      match sorted_keys d with
      | inr e => Result [] (Some []) (Raised e)
      | inl names =>
          match write_entries d names [] with
          | (text, Completed) => Result [SuccessMessage] (Some text) Completed
          | (text, o) => Result [] (Some text) o
          end
      end
  end.

End GenerateHashes.

(** ** [generate_hashes.py]: the prompt before step 1

    Lines 31 to 55: the script asks whether [english.xml] is to be copied
    from the game files, and from where.  [input()] takes the next line of
    the standard input and raises [EOFError] when there is none.  The file
    system is what the script can tell of it: what [os.path.exists] and
    [shutil.copy2] do at a path, and whether [./input] can be written.
    [str.lower] is a parameter: its table of case mappings is Python's. *)

Module CopyPrompt.
Import Py GenerateHashes.

Definition default_game_path : str :=
  lit "D:\Games\SteamLibrary\SteamApps\common\Stationeers\rocketstation_Data\StreamingAssets\Language\english.xml".

(** A file, by what [ET.parse] finds in it. *)
Inductive xml_file := NotXml | Xml (things : list record_thing).

(** A path: nothing there; something that [shutil.copy2] cannot copy (a
    directory, an unreadable file, the input file itself); a file. *)
Inductive path_state := NoEntry | Uncopyable | Copyable (content : xml_file).

Definition parsed (f : xml_file) : source :=
  match f with
  | NotXml => Malformed
  | Xml things => Parsed things
  end.

(** What the script prints: its own messages, and those of steps 1 to 3. *)
Inductive notice :=
| Banner
| AskPath
| Copied (game_path : str)
| CopyError
| GameFileNotFound (game_path : str)
| Said (m : message).

(** The end of the process: as in steps 1 to 3, or by [EOFError]. *)
Inductive finish := Ended (o : outcome) | EndOfInput.

Record session := Session {
  printed : list notice;
  destination : option str;
  finished : finish
}.

Section WithLower.
Variable lower : str -> str.

(** [copy_choice.lower() in ['y', 'yes']] *)
Definition wants_copy (copy_choice : str) : bool :=
  bool_decide (lower copy_choice ∈ [lit "y"; lit "yes"]).

(** Steps 1 to 3, after what the prompt printed. *)
Definition steps (said : list notice) (src : source) (old_out : option str)
  : session :=
  let r := run src old_out in
  Session (said ++ map Said (console r)) (out_file r) (Ended (ended r)).

Definition main (stdin : list str) (paths : str -> path_state)
    (input_writable : bool) (input : source) (old_out : option str)
  : session :=
  match stdin with
  | [] => Session [Banner] old_out EndOfInput
  | answer :: stdin =>
      let copy_choice := strip answer in
      if wants_copy copy_choice then
        match stdin with
        | [] => Session [Banner; AskPath] old_out EndOfInput
        | answer :: _ =>
            let game_path_input := strip answer in
            let game_path :=
              if truthy game_path_input then game_path_input
              else default_game_path in
            match paths game_path with
            | NoEntry =>
                Session [Banner; AskPath; GameFileNotFound game_path]
                        old_out (Ended Exited)
            | Uncopyable =>
                Session [Banner; AskPath; CopyError] old_out (Ended Exited)
            | Copyable content =>
                (* [os.makedirs('./input', exist_ok=True)] and
                   [shutil.copy2(game_path, input_filename)] *)
                if input_writable then
                  steps [Banner; AskPath; Copied game_path]
                        (parsed content) old_out
                else
                  Session [Banner; AskPath; CopyError] old_out (Ended Exited)
            end
        end
      else steps [Banner] input old_out
  end.

End WithLower.

End CopyPrompt.

(** ** [update_device_hashes.py]: the Rust lookup tables *)

Module UpdateDeviceHashes.
Import Py.

(** A page of [Stationpedia.json], with the fields the script reads, typed
    as the export has them (strings and an integer).  For [PrefabName] and
    [PrefabHash], [None] is what [page.get] returns for a missing or [null]
    field; for [Title], [None] is a missing field. *)
Record page := Page {
  PrefabName : option str;
  PrefabHash : option Z;
  Title : option str
}.

(** What [open], [json.load] and [data['pages']] find: no file, no
    JSON document, a document without ['pages'], or the pages. *)
Inductive source :=
| Absent
| Malformed
| NoPages
| Parsed (pages : list page).

Inductive exn :=
| FileNotFoundError | JSONDecodeError | KeyError | UnicodeEncodeError.

Inductive outcome := Completed | Raised (e : exn).

Record result := Result {
  console : list str;
  out_file : option str;
  ended : outcome
}.

(** [title.replace('<N:EN:', '').replace('>', '').strip()] *)
Definition clean_title (title : str) : str :=
  strip (replace (replace title (lit "<N:EN:") []) (lit ">") []).

(** Lines 26 to 28: the display name of a page. *)
Definition display_name (title prefab_name : str) : str :=
  let display_name := clean_title title in
  if truthy display_name then display_name else prefab_name.

Record tables := Tables {
  device_map : gmap str (Z * str);
  hash_to_name : gmap Z str
}.

Definition no_tables : tables := Tables ∅ ∅.

(** The body of the loop over [data['pages']]. *)
Definition add_page (t : tables) (p : page) : tables :=
  let title := default [] (Title p) in
  match PrefabName p, PrefabHash p with
  | Some prefab_name, Some prefab_hash =>
      if truthy prefab_name then
        let display_name := display_name title prefab_name in
        Tables (<[ prefab_name := (prefab_hash, display_name) ]> (device_map t))
               (<[ prefab_hash := display_name ]> (hash_to_name t))
      else t
  | _, _ => t
  end.

Definition load (pages : list page) : tables :=
  fold_left add_page pages no_tables.

(** The pages that pass the test of line 24. *)
Definition retained (p : page) : bool :=
  match PrefabName p, PrefabHash p with
  | Some prefab_name, Some _ => truthy prefab_name
  | _, _ => false
  end.

(** *** The generated Rust file *)

Definition header : str :=
  lit "// Device name to hash mapping for HASH() function tooltip support" ++ nl
  ++ lit "// Auto-generated from Stationpedia.json" ++ nl
  ++ nl
  ++ lit "use phf::phf_map;" ++ nl
  ++ nl
  ++ lit "pub static DEVICE_NAME_TO_HASH: phf::Map<&'static str, i32> = phf_map! {" ++ nl.

Definition middle : str :=
  lit "};" ++ nl
  ++ nl
  ++ lit "pub static HASH_TO_DISPLAY_NAME: phf::Map<i32, &'static str> = phf_map! {" ++ nl.

Definition footer : str := lit "};" ++ nl.

(** The entries of [DEVICE_NAME_TO_HASH], in the order of the file. *)
Definition name_to_hash (t : tables) : list (str * Z) :=
  omap (fun prefab_name =>
          match device_map t !! prefab_name with
          | Some (hash_value, _) => Some (prefab_name, hash_value)
          | None => None
          end)
       (sorted_str (map_to_list (device_map t)).*1).

(** [f'    "{prefab_name}" => {hash_value},\n'] *)
Definition name_line (e : str * Z) : str :=
  lit "    " ++ dquote ++ e.1 ++ dquote ++ lit " => "
    ++ str_of_int e.2 ++ lit "," ++ nl.

(** The entries of [HASH_TO_DISPLAY_NAME], in the order of the file. *)
Definition hash_to_display_name (t : tables) : list (Z * str) :=
  omap (fun hash_value =>
          match hash_to_name t !! hash_value with
          | Some display_name => Some (hash_value, display_name)
          | None => None
          end)
       (sorted_int (map_to_list (hash_to_name t)).*1).

(** [display_name.replace('\\', '\\\\').replace('"', '\\"')] *)
Definition escape (display_name : str) : str :=
  replace (replace display_name [92] [92; 92]) dquote [92; 34].

(** [f'    {hash_value} => "{display_name}",\n'] *)
Definition hash_line (e : Z * str) : str :=
  lit "    " ++ str_of_int e.1 ++ lit " => " ++ dquote
    ++ escape e.2 ++ dquote ++ lit "," ++ nl.

Definition rust_code (t : tables) : str :=
  header
    ++ concat (map name_line (name_to_hash t))
    ++ middle
    ++ concat (map hash_line (hash_to_display_name t))
    ++ footer.

(** *** The console *)

Definition output_path : str :=
  lit "c:\Users\marka\Desktop\VS IC10 Extension Repo\Stationeers-ic10-main\FlorpyDorp IC10\ic10lsp\src\device_hashes.rs".

(** [len(d)] printed in an f-string. *)
Definition len_str {K V} `{Countable K} (d : gmap K V) : str :=
  str_of_int (Z.of_nat (size d)).

Definition loading_message : str := lit "Loading Stationpedia.json...".

Definition found_message (t : tables) : str :=
  lit "Found " ++ len_str (device_map t) ++ lit " devices".

Definition writing_message : str :=
  lit "Writing to " ++ output_path ++ lit "...".

(** The three [print] calls that end the script. *)
Definition summary (t : tables) : list str :=
  [ [0x2705] ++ lit " Done! Device hashes updated.";
    lit "   - " ++ len_str (device_map t) ++ lit " device names mapped";
    lit "   - " ++ len_str (hash_to_name t) ++ lit " hash values mapped" ].

Definition run (src : source) (old_out : option str) : result :=
  match src with
  | Absent => Result [loading_message] old_out (Raised FileNotFoundError)
  | Malformed => Result [loading_message] old_out (Raised JSONDecodeError)
  | NoPages => Result [loading_message] old_out (Raised KeyError)
  | Parsed pages =>
      let t := load pages in
      let text := rust_code t in
      let printed := [loading_message; found_message t; writing_message] in
      (* [open(output_path, 'w', encoding='utf-8')] truncates the file *)
      match encode_utf8 text with
      | None => Result printed (Some []) (Raised UnicodeEncodeError)
      | Some _ => Result (printed ++ summary t) (Some text) Completed
      end
  end.

End UpdateDeviceHashes.

(** ** Notions used to state the properties *)

(** A 32-bit unsigned value. *)
Definition word32 (x : Z) : Prop := 0 <= x < 2 ^ 32.

(** [p] occurs in [s] as a substring. *)
Definition occurs (p s : Py.str) : Prop :=
  exists pre post, s = pre ++ p ++ post.

(** A string that a parser of XML or JSON text can deliver and that
    [encode('utf-8')] accepts: code points that are Unicode scalar values. *)
Definition text (s : Py.str) : Prop := Forall Py.scalar_value s.

Module TextFacts.
Import GenerateHashes.

(** [t] is the last record of the source whose key is [k]. *)
Definition last_with_key (k : option Py.str) (things : list record_thing)
    (t : record_thing) : Prop :=
  exists before after,
    things = before ++ t :: after /\ Key t = k /\
    Forall (fun q => Key q <> k) after.

(** A record with a [<Key>], whose strings are text. *)
Definition keyed_text (t : record_thing) : Prop :=
  (exists k, Key t = Some k /\ text k) /\
  (forall v, Value t = Some v -> text v).

(** The source gave no records: the file is missing or is not XML. *)
Definition unavailable (src : source) : Prop :=
  match src with
  | Parsed _ => False
  | _ => True
  end.

End TextFacts.

Module TableFacts.
Import UpdateDeviceHashes.

(** The source gave no pages: the file is missing, is not JSON, or has
    no ['pages']. *)
Definition unavailable (src : source) : Prop :=
  match src with
  | Parsed _ => False
  | _ => True
  end.


(** The display name that the loop stores for a retained page. *)
Definition display_of (p : page) : Py.str :=
  display_name (default [] (Title p)) (default [] (PrefabName p)).

(** [p] is the last page, in the order of the source, that the loop
    retains and that [sel] selects. *)
Definition last_retained (sel : page -> Prop) (pages : list page) (p : page)
  : Prop :=
  exists before after,
    pages = before ++ p :: after /\
    retained p = true /\ sel p /\
    Forall (fun q => retained q = true -> ~ sel q) after.

Definition has_name (name : Py.str) (p : page) : Prop :=
  PrefabName p = Some name.

Definition has_hash (h : Z) (p : page) : Prop :=
  PrefabHash p = Some h.

(** The identifiers and the hashes of the retained pages, in the order
    of the source. *)
Definition retained_names (pages : list page) : list Py.str :=
  omap (fun p => if retained p then PrefabName p else None) pages.

Definition retained_hashes (pages : list page) : list Z :=
  omap (fun p => if retained p then PrefabHash p else None) pages.

(** The strings of a page are text. *)
Definition page_text (p : page) : Prop :=
  (forall name, PrefabName p = Some name -> text name) /\
  (forall title, Title p = Some title -> text title).

End TableFacts.

(** ** Rust string literals

    How the generated file is read back, as far as the two escapes of the
    script go: in a string literal a backslash takes the next character
    with it, and a quote that no backslash takes ends the literal. *)

Module RustLiteral.
Import Py.

(** What the two [replace] calls of line 58 make of one character. *)
Definition escape_char (c : Z) : str :=
  if c =? 92 then [92; 92] else if c =? 34 then [92; 34] else [c].

(** The characters that a literal body denotes. *)
Fixpoint unescape (s : str) : str :=
  match s with
  | [] => []
  | c :: t =>
      if c =? 92 then
        match t with
        | [] => [c]
        | e :: t' => e :: unescape t'
        end
      else c :: unescape t
  end.

(** The body holds a quote that no backslash takes. *)
Fixpoint bare_quote (s : str) : bool :=
  match s with
  | [] => false
  | c :: t =>
      if c =? 92 then
        match t with
        | [] => false
        | _ :: t' => bare_quote t'
        end
      else if c =? 34 then true
      else bare_quote t
  end.

End RustLiteral.

(** ** Reading UTF-8 back

    The code points that a byte string denotes when it is the UTF-8
    encoding of a string: the first byte of a character tells how many
    bytes follow.  (Bytes that are no encoding are not checked.) *)

Module Utf8.

Fixpoint decode (bytes : list Z) : list Z :=
  match bytes with
  | [] => []
  | b0 :: t =>
      if b0 <? 0x80 then b0 :: decode t
      else if b0 <? 0xE0 then
        match t with
        | b1 :: t1 => (b0 - 0xC0) * 64 + (b1 - 0x80) :: decode t1
        | _ => []
        end
      else if b0 <? 0xF0 then
        match t with
        | b1 :: b2 :: t2 =>
            (b0 - 0xE0) * 4096 + (b1 - 0x80) * 64 + (b2 - 0x80) :: decode t2
        | _ => []
        end
      else
        match t with
        | b1 :: b2 :: b3 :: t3 =>
            (b0 - 0xF0) * 262144 + (b1 - 0x80) * 4096 + (b2 - 0x80) * 64
              + (b3 - 0x80) :: decode t3
        | _ => []
        end
  end.

End Utf8.

(** ** Sample sources *)

Module Samples.
Import Py.

Definition page_of (name : string) (h : Z) (title : string)
  : UpdateDeviceHashes.page :=
  UpdateDeviceHashes.Page (Some (lit name)) (Some h) (Some (lit title)).

(** Two identifiers with one hash, the later identifier first. *)
Definition beta_then_alpha : list UpdateDeviceHashes.page :=
  [page_of "StructureB" 7 "Beta"; page_of "StructureA" 7 "Alpha"].

(** Three identifiers and two hashes: the first two collide, or the
    last two. *)
Definition first_two_collide : list UpdateDeviceHashes.page :=
  [page_of "StructureA" 1 "Alpha"; page_of "StructureB" 1 "Beta";
   page_of "StructureC" 2 "Gamma"].

Definition last_two_collide : list UpdateDeviceHashes.page :=
  [page_of "StructureA" 1 "Alpha"; page_of "StructureB" 2 "Beta";
   page_of "StructureC" 2 "Gamma"].

(** An identifier listed twice, with two hashes, and a second identifier
    that shares the later one; and the same identifiers without a shared
    hash. *)
Definition relisted_then_collide : list UpdateDeviceHashes.page :=
  [page_of "StructureA" 1 "Alpha"; page_of "StructureA" 2 "Alpha";
   page_of "StructureB" 2 "Beta"].

Definition no_collision : list UpdateDeviceHashes.page :=
  [page_of "StructureA" 1 "Alpha"; page_of "StructureB" 2 "Beta"].

(** A page whose hash field is not the CRC-32 of its identifier. *)
Definition arbitrary_hash : list UpdateDeviceHashes.page :=
  [page_of "DeviceA" 42 "<N:EN:Pipe Analyzer>"].

(** The record of the scenario of the text reference. *)
Definition device_a : list GenerateHashes.record_thing :=
  [GenerateHashes.RecordThing (Some (lit "DeviceA"))
                              (Some (lit "<N:EN:Pipe Analyzer>"))].

(** A record without [<Key>], before a record with one. *)
Definition missing_key : list GenerateHashes.record_thing :=
  [GenerateHashes.RecordThing None (Some (lit "Orphan"));
   GenerateHashes.RecordThing (Some (lit "DeviceA")) (Some (lit "Analyzer"))].

(** A record whose [<Key>] is empty. *)
Definition empty_key : list GenerateHashes.record_thing :=
  [GenerateHashes.RecordThing (Some (lit "")) (Some (lit "Nameless"))].

End Samples.

Example crc32_check_vector :
  Zlib.crc32 (Py.lit "123456789") = 0xCBF43926 /\
  Crc32Ieee.checksum (Py.lit "123456789") = 0xCBF43926 /\
  Crc32Ieee.checksum (Py.lit "a") = 0xE8B7BE43 /\
  Crc32Ieee.checksum (Py.lit "The quick brown fox jumps over the lazy dog")
  = 0x414FA339 /\
  Crc32Ieee.checksum [] = 0.
Proof. repeat split; vm_compute; reflexivity. Qed.

Example py_builtins_examples :
  Py.str_of_int (-1234567890) = Py.lit "-1234567890" /\
  Py.str_of_int 0 = Py.lit "0" /\
  Py.hex 0xb669fd2e = Py.lit "0xb669fd2e" /\
  Py.hex 0 = Py.lit "0x0" /\
  Py.replace (Py.lit "a<N:EN:b<N:EN:") (Py.lit "<N:EN:") [] = Py.lit "ab" /\
  Py.replace (Py.lit "aaa") (Py.lit "aa") (Py.lit "b") = Py.lit "ba" /\
  Py.strip (Py.lit "  a b  ") = Py.lit "a b" /\
  Py.sorted_str [Py.lit "b"; Py.lit "ab"; Py.lit "a"; Py.lit "B"]
    = [Py.lit "B"; Py.lit "a"; Py.lit "ab"; Py.lit "b"] /\
  Py.sorted_int [3; -1; 2] = [-1; 2; 3] /\
  Py.encode_utf8 [0x20AC; 0x1F600; 0xE9] =
    Some [0xE2; 0x82; 0xAC; 0xF0; 0x9F; 0x98; 0x80; 0xC3; 0xA9].
Proof. repeat split; vm_compute; reflexivity. Qed.

(** * Properties *)

(** ** Bit-level facts *)

Ltac bitwise :=
  apply Z.bits_inj'; intros ?i ?Hi;
  repeat (rewrite ?Z.lxor_spec, ?Z.lor_spec, ?Z.land_spec, ?Z.shiftr_spec,
          ?Z.shiftl_spec, ?Z.bits_0 by lia).

Lemma below_pow2_lxor n a b :
  0 <= a < 2 ^ n -> 0 <= b < 2 ^ n -> 0 <= Z.lxor a b < 2 ^ n.
Proof.
  intros [Ha0 Ha] [Hb0 Hb]. split; [apply Z.lxor_nonneg; tauto|].
  assert (Hx : 0 <= Z.lxor a b) by (apply Z.lxor_nonneg; tauto).
  destruct (Z.eq_dec (Z.lxor a b) 0) as [->|Hne]; [lia|].
  assert (0 <= n) by (destruct n; try lia; rewrite Z.pow_neg_r in Ha; lia).
  assert (0 < n).
  { destruct (Z.eq_dec n 0) as [->|]; [|lia]. exfalso. apply Hne.
    replace a with 0 by lia. replace b with 0 by lia. reflexivity. }
  apply Z.log2_lt_pow2; [lia|].
  pose proof (Z.log2_lxor a b Ha0 Hb0) as Hl.
  assert (Z.log2 a < n).
  { destruct (Z.eq_dec a 0) as [->|]; [simpl; lia|]. apply Z.log2_lt_pow2; lia. }
  assert (Z.log2 b < n).
  { destruct (Z.eq_dec b 0) as [->|]; [simpl; lia|]. apply Z.log2_lt_pow2; lia. }
  lia.
Qed.

Lemma below_pow2_lor n a b :
  0 <= a < 2 ^ n -> 0 <= b < 2 ^ n -> 0 <= Z.lor a b < 2 ^ n.
Proof.
  intros [Ha0 Ha] [Hb0 Hb]. split; [apply Z.lor_nonneg; tauto|].
  assert (Hx : 0 <= Z.lor a b) by (apply Z.lor_nonneg; tauto).
  destruct (Z.eq_dec (Z.lor a b) 0) as [->|Hne]; [lia|].
  assert (0 <= n) by (destruct n; try lia; rewrite Z.pow_neg_r in Ha; lia).
  assert (0 < n).
  { destruct (Z.eq_dec n 0) as [->|]; [|lia]. exfalso. apply Hne.
    replace a with 0 by lia. replace b with 0 by lia. reflexivity. }
  apply Z.log2_lt_pow2; [lia|].
  rewrite Z.log2_lor by lia.
  assert (Z.log2 a < n).
  { destruct (Z.eq_dec a 0) as [->|]; [simpl; lia|]. apply Z.log2_lt_pow2; lia. }
  assert (Z.log2 b < n).
  { destruct (Z.eq_dec b 0) as [->|]; [simpl; lia|]. apply Z.log2_lt_pow2; lia. }
  lia.
Qed.

Lemma shiftr_below n k a :
  0 <= k -> 0 <= n -> 0 <= a < 2 ^ (n + k) -> 0 <= Z.shiftr a k < 2 ^ n.
Proof.
  intros Hk Hn [Ha0 Ha]. rewrite Z.shiftr_div_pow2 by lia. split.
  - apply Z.div_pos; [lia|]. apply Z.pow_pos_nonneg; lia.
  - apply Z.div_lt_upper_bound; [apply Z.pow_pos_nonneg; lia|].
    rewrite <- Z.pow_add_r by lia. rewrite (Z.add_comm k n). exact Ha.
Qed.

Lemma land_low_below n a : 0 <= n -> 0 <= Z.land a (Z.ones n) < 2 ^ n.
Proof.
  intros Hn. rewrite Z.land_ones by lia. apply Z.mod_pos_bound.
  apply Z.pow_pos_nonneg; lia.
Qed.

Lemma shiftr_small n a : 0 <= n -> 0 <= a < 2 ^ n -> Z.shiftr a n = 0.
Proof.
  intros Hn Ha. rewrite Z.shiftr_div_pow2 by lia. apply Z.div_small. exact Ha.
Qed.

(** ** The table of [zlib] against the bit-serial register *)

Lemma table_round_lxor a b :
  Zlib.table_round (Z.lxor a b)
  = Z.lxor (Zlib.table_round a) (Zlib.table_round b).
Proof.
  unfold Zlib.table_round. rewrite Z.lxor_spec, Z.shiftr_lxor.
  destruct (Z.testbit a 0), (Z.testbit b 0); simpl; bitwise;
    destruct (Z.testbit Zlib.POLY i), (Z.testbit a (i + 1)),
             (Z.testbit b (i + 1)); reflexivity.
Qed.

Lemma iter_table_round_lxor k a b :
  Nat.iter k Zlib.table_round (Z.lxor a b)
  = Z.lxor (Nat.iter k Zlib.table_round a) (Nat.iter k Zlib.table_round b).
Proof.
  induction k as [|k IH]; simpl; [reflexivity|].
  rewrite IH. apply table_round_lxor.
Qed.

(** A register whose low [k] bits are clear is only shifted by [k] rounds. *)
Lemma iter_table_round_high k y :
  (forall i, 0 <= i < Z.of_nat k -> Z.testbit y i = false) ->
  Nat.iter k Zlib.table_round y = Z.shiftr y (Z.of_nat k).
Proof.
  revert y. induction k as [|k IH]; intros y Hy.
  - simpl. symmetry. apply Z.shiftr_0_r.
  - rewrite Nat.iter_succ_r.
    assert (Hr : Zlib.table_round y = Z.shiftr y 1).
    { unfold Zlib.table_round. rewrite Hy by lia. reflexivity. }
    rewrite Hr, IH.
    + rewrite Z.shiftr_shiftr by lia. f_equal. lia.
    + intros i Hi. rewrite Z.shiftr_spec by lia. apply Hy. lia.
Qed.

Lemma split_low_byte x :
  x = Z.lxor (Z.land x 0xff) (Z.shiftl (Z.shiftr x 8) 8).
Proof.
  change 0xff with (Z.ones 8). bitwise.
  destruct (Z_lt_dec i 8).
  - rewrite Z.ones_spec_low, (Z.testbit_neg_r _ (i - 8)) by lia.
    destruct (Z.testbit x i); reflexivity.
  - rewrite Z.ones_spec_high, Z.shiftr_spec by lia.
    replace (i - 8 + 8) with i by lia.
    destruct (Z.testbit x i); reflexivity.
Qed.

Lemma eight_rounds x :
  Nat.iter 8 Zlib.table_round x
  = Z.lxor (Zlib.table_entry (Z.land x 0xff)) (Z.shiftr x 8).
Proof.
  rewrite (split_low_byte x) at 1.
  rewrite iter_table_round_lxor. unfold Zlib.table_entry. f_equal.
  rewrite iter_table_round_high.
  - change (Z.of_nat 8) with 8. bitwise. f_equal. lia.
  - intros i Hi. rewrite Z.shiftl_spec by lia.
    apply Z.testbit_neg_r. lia.
Qed.

Lemma crc_table_lookup n :
  0 <= n < 256 ->
  nth (Z.to_nat n) Zlib.crc_table 0 = Zlib.table_entry n.
Proof.
  intros Hn. unfold Zlib.crc_table.
  rewrite (nth_indep _ 0 (Zlib.table_entry (Z.of_nat 0)))
    by (rewrite length_map, length_seq; lia).
  rewrite (map_nth (fun n => Zlib.table_entry (Z.of_nat n))).
  rewrite seq_nth by lia. simpl. f_equal. lia.
Qed.

Lemma crc_byte_rounds crc b :
  Py.octet b ->
  Zlib.crc_byte crc b = Nat.iter 8 Zlib.table_round (Z.lxor crc b).
Proof.
  intros Hb. unfold Zlib.crc_byte. rewrite eight_rounds.
  rewrite crc_table_lookup
    by (change 0xff with (Z.ones 8); apply (land_low_below 8); lia).
  f_equal. rewrite Z.shiftr_lxor.
  rewrite (shiftr_small 8 b) by (unfold Py.octet in Hb; lia).
  symmetry. apply Z.lxor_0_r.
Qed.

Lemma feed_bits_rounds b n crc :
  Z.lxor (fold_left (Crc32Ieee.feed_bit b) (seq 0 n) crc)
         (Z.shiftr b (Z.of_nat n))
  = Nat.iter n Zlib.table_round (Z.lxor crc b).
Proof.
  induction n as [|n IH].
  - simpl. rewrite Z.shiftr_0_r. reflexivity.
  - rewrite seq_S, fold_left_app. simpl fold_left. simpl Nat.iter.
    rewrite <- IH.
    set (c := fold_left (Crc32Ieee.feed_bit b) (seq 0 n) crc).
    unfold Crc32Ieee.feed_bit, Zlib.table_round.
    rewrite Z.lxor_spec, Z.shiftr_spec, Z.add_0_l, Z.shiftr_lxor by lia.
    rewrite Z.shiftr_shiftr by lia.
    replace (Z.of_nat (S n)) with (Z.of_nat n + 1) by lia.
    change Crc32Ieee.poly_reflected with Zlib.POLY.
    destruct (xorb (Z.testbit c 0) (Z.testbit b (Z.of_nat n))); [|reflexivity].
    bitwise.
    destruct (Z.testbit Zlib.POLY i), (Z.testbit c (i + 1)),
             (Z.testbit b (i + (Z.of_nat n + 1))); reflexivity.
Qed.

Lemma feed_byte_crc_byte crc b :
  Py.octet b -> Crc32Ieee.feed_byte crc b = Zlib.crc_byte crc b.
Proof.
  intros Hb. rewrite crc_byte_rounds by exact Hb.
  rewrite <- feed_bits_rounds. change (Z.of_nat 8) with 8.
  rewrite (shiftr_small 8 b) by (unfold Py.octet in Hb; lia).
  rewrite Z.lxor_0_r. reflexivity.
Qed.

Lemma zlib_crc32_is_ieee data :
  Forall Py.octet data -> Zlib.crc32 data = Crc32Ieee.checksum data.
Proof.
  intros Hd. unfold Zlib.crc32, Crc32Ieee.checksum. f_equal.
  generalize 0xffffffff. induction Hd as [|b data Hb _ IH]; intros crc.
  - reflexivity.
  - simpl. rewrite feed_byte_crc_byte by exact Hb. apply IH.
Qed.

(** ** The checksum is a 32-bit word *)

Lemma table_round_word32 c : word32 c -> word32 (Zlib.table_round c).
Proof.
  unfold word32, Zlib.table_round. intros Hc.
  pose proof (shiftr_below 31 1 c ltac:(lia) ltac:(lia) Hc) as Hs.
  destruct (Z.testbit c 0); [|lia].
  apply below_pow2_lxor; [unfold Zlib.POLY|]; lia.
Qed.

Lemma iter_table_round_word32 k c :
  word32 c -> word32 (Nat.iter k Zlib.table_round c).
Proof.
  intros Hc. induction k as [|k IH]; simpl; [exact Hc|].
  apply table_round_word32, IH.
Qed.

Lemma crc_byte_word32 crc b : word32 crc -> word32 (Zlib.crc_byte crc b).
Proof.
  intros Hc. unfold Zlib.crc_byte.
  pose proof (land_low_below 8 (Z.lxor crc b) ltac:(lia)) as Hi.
  change (Z.ones 8) with 0xff in Hi.
  rewrite crc_table_lookup by lia.
  apply below_pow2_lxor.
  - apply iter_table_round_word32. unfold word32. lia.
  - unfold word32 in Hc.
    pose proof (shiftr_below 24 8 crc ltac:(lia) ltac:(lia) Hc). lia.
Qed.

Lemma crc32_word32 data : word32 (Zlib.crc32 data).
Proof.
  unfold Zlib.crc32. apply below_pow2_lxor; [|lia].
  assert (H : word32 0xffffffff) by (unfold word32; lia).
  revert H. generalize 0xffffffff.
  induction data as [|b data IH]; intros crc Hc; simpl; [exact Hc|].
  apply IH, crc_byte_word32, Hc.
Qed.

(** ** UTF-8 *)

Ltac octet_bound :=
  unfold Py.octet;
  repeat match goal with
  | |- 0 <= Z.lor _ _ < 256 => apply (below_pow2_lor 8)
  | |- 0 <= Z.land _ 63 < 2 ^ 8 =>
      let H := fresh in
      match goal with |- 0 <= Z.land ?x _ < _ =>
        pose proof (land_low_below 6 x ltac:(lia)) as H;
        change (Z.ones 6) with 63 in H; lia
      end
  | |- 0 <= Z.shiftr ?c ?k < 2 ^ 8 =>
      apply (shiftr_below 8 k c); lia
  | |- 0 <= _ < _ => lia
  end.

Lemma utf8_encode_char_octets c bs :
  Py.utf8_encode_char c = Some bs -> Forall Py.octet bs.
Proof.
  unfold Py.utf8_encode_char.
  repeat match goal with
  | |- context [if ?b then _ else _] => destruct b eqn:?
  end; intros [= <-];
  repeat match goal with
  | H : andb _ _ = _ |- _ =>
      first [apply andb_true_iff in H | apply andb_false_iff in H]
  end;
  repeat match goal with
  | |- Forall _ (_ :: _) => constructor
  | |- Forall _ [] => constructor
  end; octet_bound.
Qed.

Lemma encode_utf8_octets s bs :
  Py.encode_utf8 s = Some bs -> Forall Py.octet bs.
Proof.
  unfold Py.encode_utf8. intros H.
  apply fmap_Some in H as (bss & Hm & ->).
  apply mapM_Some_1 in Hm.
  induction Hm as [|c bs' s' bss' Hc _ IH]; simpl.
  - constructor.
  - apply Forall_app. split; [|exact IH].
    eapply utf8_encode_char_octets, Hc.
Qed.

Lemma utf8_encode_char_total c :
  Py.scalar_value c -> is_Some (Py.utf8_encode_char c).
Proof.
  unfold Py.scalar_value, Py.utf8_encode_char. intros [Hr Hs].
  repeat match goal with
  | |- context [if ?b then _ else _] => destruct b eqn:?
  end; try (eexists; reflexivity); exfalso;
  repeat match goal with
  | H : andb _ _ = _ |- _ =>
      first [apply andb_true_iff in H | apply andb_false_iff in H]
  end; lia.
Qed.

Lemma encode_utf8_total s :
  Forall Py.scalar_value s -> is_Some (Py.encode_utf8 s).
Proof.
  intros Hs. unfold Py.encode_utf8. apply fmap_is_Some, mapM_is_Some.
  eapply Forall_impl; [exact Hs|]. intros c Hc. apply utf8_encode_char_total, Hc.
Qed.

(** ** The hash engine of [generate_hashes.py] *)

Lemma unsigned_hash_word32 (s : Py.str) h :
  GenerateHashes.unsigned_hash s = Some h -> 0 <= h <= 2 ^ 32 - 1.
Proof.
  unfold GenerateHashes.unsigned_hash. intros H.
  apply fmap_Some in H as (bytes & _ & ->).
  pose proof (crc32_word32 bytes) as Hw. unfold word32 in Hw. lia.
Qed.

(** C1: the unsigned hash of an identifier is the CRC-32/IEEE checksum of
    its UTF-8 encoding (and is undefined exactly when the encoding is);
    every identifier made of Unicode scalar values has a hash; the hash
    of the empty string is 0; a hash lies in [0, 2^32 - 1]. *)
Theorem C1_unsigned_hash_is_crc32_ieee :
  (forall s : Py.str,
     GenerateHashes.unsigned_hash s
     = Crc32Ieee.checksum <$> Py.encode_utf8 s) /\
  (forall s : Py.str,
     Forall Py.scalar_value s ->
     exists bytes,
       Py.encode_utf8 s = Some bytes /\
       GenerateHashes.unsigned_hash s = Some (Crc32Ieee.checksum bytes)) /\
  GenerateHashes.unsigned_hash [] = Some 0 /\
  (forall (s : Py.str) h,
     GenerateHashes.unsigned_hash s = Some h -> 0 <= h <= 2 ^ 32 - 1).
Proof.
  assert (Heq : forall s : Py.str,
             GenerateHashes.unsigned_hash s
             = Crc32Ieee.checksum <$> Py.encode_utf8 s).
  { intros s. unfold GenerateHashes.unsigned_hash.
    destruct (Py.encode_utf8 s) as [bytes|] eqn:He; simpl; [|reflexivity].
    f_equal. apply zlib_crc32_is_ieee. eapply encode_utf8_octets, He. }
  split; [exact Heq|]. split; [|split].
  - intros s Hs. destruct (encode_utf8_total s Hs) as [bytes He].
    exists bytes. split; [exact He|]. rewrite Heq, He. reflexivity.
  - reflexivity.
  - apply unsigned_hash_word32.
Qed.

Lemma C1_witness :
  exists bytes,
    Py.encode_utf8 (Py.lit "123456789") = Some bytes /\
    GenerateHashes.unsigned_hash (Py.lit "123456789")
    = Some (Crc32Ieee.checksum bytes).
Proof.
  apply (proj1 (proj2 C1_unsigned_hash_is_crc32_ieee)).
  repeat constructor; unfold Py.scalar_value; simpl; lia.
Defined.

Lemma to_signed_high u :
  2 ^ 31 <= u < 2 ^ 32 -> GenerateHashes.to_signed u = u - 2 ^ 32.
Proof.
  intros Hu. unfold GenerateHashes.to_signed.
  change 0x80000000 with (2 ^ 31).
  assert (Hl : Z.land (u - 2 ^ 31) (2 ^ 31) = 0).
  { bitwise. rewrite Z.pow2_bits_eqb by lia.
    destruct (Z.eqb_spec 31 i) as [<-|]; [|apply andb_false_r].
    rewrite (Z.bits_above_log2 (u - 2 ^ 31) 31); [reflexivity|lia|].
    destruct (Z.eq_dec (u - 2 ^ 31) 0) as [->|]; [simpl; lia|].
    apply Z.log2_lt_pow2; lia. }
  apply Z.add_nocarry_lxor in Hl.
  replace (u - 2 ^ 31 + 2 ^ 31) with u in Hl by lia.
  rewrite Hl, Z.lxor_assoc, Z.lxor_nilpotent, Z.lxor_0_r. lia.
Qed.

Lemma to_signed_low u :
  0 <= u < 2 ^ 31 -> GenerateHashes.to_signed u = u.
Proof.
  intros Hu. unfold GenerateHashes.to_signed.
  change 0x80000000 with (2 ^ 31).
  assert (Hl : Z.land u (2 ^ 31) = 0).
  { bitwise. rewrite Z.pow2_bits_eqb by lia.
    destruct (Z.eqb_spec 31 i) as [<-|]; [|apply andb_false_r].
    rewrite (Z.bits_above_log2 u 31); [reflexivity|lia|].
    destruct (Z.eq_dec u 0) as [->|]; [simpl; lia|].
    apply Z.log2_lt_pow2; lia. }
  apply Z.add_nocarry_lxor in Hl. rewrite <- Hl. lia.
Qed.

(** C2: on every value of [0, 2^32 - 1] the expression
    [(unsigned_hash ^ 0x80000000) - 0x80000000] is the two's-complement
    reading of the 32 bits: the value minus 2^32 from 2^31 on, the value
    itself below; the signed hash of an identifier is this reading of its
    unsigned hash. *)
Theorem C2_signed_hash_is_twos_complement :
  (forall u, 0 <= u <= 2 ^ 32 - 1 ->
     (2 ^ 31 <= u -> GenerateHashes.to_signed u = u - 2 ^ 32) /\
     (u < 2 ^ 31 -> GenerateHashes.to_signed u = u) /\
     - 2 ^ 31 <= GenerateHashes.to_signed u < 2 ^ 31 /\
     GenerateHashes.to_signed u mod 2 ^ 32 = u) /\
  (forall (s : Py.str) u,
     GenerateHashes.unsigned_hash s = Some u ->
     GenerateHashes.signed_hash s
     = Some (if 2 ^ 31 <=? u then u - 2 ^ 32 else u)).
Proof.
  assert (Hcases : forall u, 0 <= u <= 2 ^ 32 - 1 ->
            GenerateHashes.to_signed u
            = if 2 ^ 31 <=? u then u - 2 ^ 32 else u).
  { intros u Hu. destruct (Z.leb_spec (2 ^ 31) u).
    - apply to_signed_high. lia.
    - apply to_signed_low. lia. }
  split.
  - intros u Hu. rewrite (Hcases u Hu).
    destruct (Z.leb_spec (2 ^ 31) u); repeat split; try lia.
    + replace (u - 2 ^ 32) with (u + (-1) * 2 ^ 32) by lia.
      rewrite Z.mod_add by lia. apply Z.mod_small. lia.
    + apply Z.mod_small. lia.
  - intros s u Hs. unfold GenerateHashes.signed_hash. rewrite Hs. simpl.
    f_equal. apply Hcases. apply (unsigned_hash_word32 s u Hs).
Qed.

Lemma C2_witness :
  GenerateHashes.to_signed 0x8f64773c = 0x8f64773c - 2 ^ 32.
Proof.
  apply (proj1 (proj1 C2_signed_hash_is_twos_complement 0x8f64773c ltac:(lia))).
  lia.
Defined.

(** ** [startswith], [replace] and [strip] *)

Lemma startswith_spec s p :
  Py.startswith s p = true <-> exists post, s = p ++ post.
Proof.
  revert s. induction p as [|a p IH]; intros s; simpl.
  - split; [intros _; exists s|]; reflexivity.
  - destruct s as [|b s].
    + split; [discriminate|]. intros [post H]. discriminate.
    + rewrite andb_true_iff, Z.eqb_eq, IH. split.
      * intros [-> [post ->]]. eauto.
      * intros [post [= -> ->]]. eauto.
Qed.

(** The scan of [replace] resumes behind a match. *)
Lemma replace_from_skip old new k s :
  Py.replace_from old new k s = Py.replace (drop k s) old new.
Proof.
  revert k. induction s as [|c t IH]; intros [|k]; try reflexivity.
  simpl. apply IH.
Qed.

Lemma replace_match s old new :
  old <> [] -> Py.startswith s old = true ->
  Py.replace s old new = new ++ Py.replace (drop (length old) s) old new.
Proof.
  intros Hold Hs. destruct s as [|c t].
  - destruct old; [congruence|discriminate].
  - unfold Py.replace at 1. simpl Py.replace_from.
    rewrite Hs, replace_from_skip. destruct old; [congruence|reflexivity].
Qed.

Lemma replace_no_match c t old new :
  Py.startswith (c :: t) old = false ->
  Py.replace (c :: t) old new = c :: Py.replace t old new.
Proof.
  intros Hs. unfold Py.replace. simpl Py.replace_from.
  rewrite Hs. reflexivity.
Qed.

Lemma contains_spec s p : Py.contains s p = true <-> occurs p s.
Proof.
  induction s as [|c t IH]; simpl.
  - rewrite orb_false_r, startswith_spec. split.
    + intros [post H]. exists [], post. exact H.
    + intros (pre & post & H). destruct pre; [|discriminate]. eauto.
  - rewrite orb_true_iff, startswith_spec, IH. split.
    + intros [[post H]|(pre & post & ->)].
      * exists [], post. exact H.
      * exists (c :: pre), post. reflexivity.
    + intros (pre & post & H). destruct pre as [|c' pre].
      * left. eauto.
      * right. injection H as -> ->. exists pre, post. reflexivity.
Qed.

Lemma replace_absent s old new :
  Py.contains s old = false -> Py.replace s old new = s.
Proof.
  induction s as [|c t IH]; intros Hno; [reflexivity|].
  simpl in Hno. apply orb_false_iff in Hno as [Hs Ht].
  rewrite replace_no_match by exact Hs. f_equal. apply IH, Ht.
Qed.

Lemma contains_char_absent c s : c ∉ s -> Py.contains s [c] = false.
Proof.
  induction s as [|d t IH]; intros Hc; [reflexivity|].
  apply not_elem_of_cons in Hc as [Hne Hc]. simpl.
  rewrite IH by exact Hc.
  destruct (Z.eqb_spec c d); [congruence|reflexivity].
Qed.

Lemma replace_from_delete_sublist old k s :
  Py.replace_from old [] k s `sublist_of` s.
Proof.
  revert k. induction s as [|c t IH]; intros k; simpl; [constructor|].
  destruct k as [|k]; [|apply sublist_cons, IH].
  destruct (Py.startswith (c :: t) old).
  - simpl. apply sublist_cons, IH.
  - apply sublist_skip, IH.
Qed.

Lemma replace_from_char_delete c k s x :
  x ∈ Py.replace_from [c] [] k s -> x <> c /\ x ∈ s.
Proof.
  revert k. induction s as [|d t IH]; intros k; simpl.
  - intros H. inversion H.
  - destruct k as [|k].
    + destruct (Z.eqb_spec c d) as [->|Hne]; simpl.
      * intros H. apply IH in H as [? ?]. split; [assumption|]. by right.
      * intros H. apply elem_of_cons in H as [->|H].
        -- split; [congruence|]. by left.
        -- apply IH in H as [? ?]. split; [assumption|]. by right.
    + intros H. apply IH in H as [? ?]. split; [assumption|]. by right.
Qed.

Lemma lstrip_suffix s :
  exists pre, s = pre ++ Py.lstrip s /\ Forall (fun c => Py.isspace c = true) pre.
Proof.
  induction s as [|c t (pre & IH & Hpre)]; simpl.
  - exists []. split; [reflexivity|constructor].
  - destruct (Py.isspace c) eqn:Hc.
    + exists (c :: pre). split; [simpl; congruence|by constructor].
    + exists []. split; [reflexivity|constructor].
Qed.

Lemma lstrip_spaces s :
  Forall (fun c => Py.isspace c = true) s -> Py.lstrip s = [].
Proof.
  induction 1 as [|c t Hc _ IH]; simpl; [reflexivity|]. rewrite Hc. exact IH.
Qed.

Lemma rstrip_prefix s : exists post, s = Py.rstrip s ++ post.
Proof.
  unfold Py.rstrip. destruct (lstrip_suffix (rev s)) as (pre & H & _).
  exists (rev pre). rewrite <- rev_app_distr, <- H, rev_involutive. reflexivity.
Qed.

Lemma strip_sublist s : Py.strip s `sublist_of` s.
Proof.
  unfold Py.strip.
  destruct (rstrip_prefix (Py.lstrip s)) as [post Hr].
  destruct (lstrip_suffix s) as (pre & Hl & _).
  rewrite Hl at 2. apply sublist_inserts_l.
  rewrite Hr at 2. apply sublist_inserts_r. reflexivity.
Qed.


(** ** The canonicalizer of [update_device_hashes.py] *)

Lemma display_name_cases title prefab_name :
  UpdateDeviceHashes.display_name title prefab_name
  = match UpdateDeviceHashes.clean_title title with
    | [] => prefab_name
    | _ :: _ => UpdateDeviceHashes.clean_title title
    end.
Proof.
  unfold UpdateDeviceHashes.display_name.
  destruct (UpdateDeviceHashes.clean_title title); reflexivity.
Qed.


Lemma truthy_nonempty s : Py.truthy s = true <-> s <> [].
Proof. destruct s; simpl; split; congruence. Qed.


Lemma load_snoc pages p :
  UpdateDeviceHashes.load (pages ++ [p])
  = UpdateDeviceHashes.add_page (UpdateDeviceHashes.load pages) p.
Proof. unfold UpdateDeviceHashes.load. apply fold_left_app. Qed.

(** The effect of the loop body on a retained page, and on any other. *)
Lemma add_page_retained t p :
  UpdateDeviceHashes.retained p = true ->
  exists prefab_name prefab_hash,
    UpdateDeviceHashes.PrefabName p = Some prefab_name /\
    UpdateDeviceHashes.PrefabHash p = Some prefab_hash /\
    prefab_name <> [] /\
    UpdateDeviceHashes.add_page t p
    = let display_name :=
        UpdateDeviceHashes.display_name
          (default [] (UpdateDeviceHashes.Title p)) prefab_name in
      UpdateDeviceHashes.Tables
        (<[ prefab_name := (prefab_hash, display_name) ]>
           (UpdateDeviceHashes.device_map t))
        (<[ prefab_hash := display_name ]> (UpdateDeviceHashes.hash_to_name t)).
Proof.
  unfold UpdateDeviceHashes.retained, UpdateDeviceHashes.add_page.
  destruct (UpdateDeviceHashes.PrefabName p) as [n|]; [|discriminate].
  destruct (UpdateDeviceHashes.PrefabHash p) as [h|]; [|discriminate].
  intros Hn. rewrite Hn. exists n, h.
  apply truthy_nonempty in Hn. auto.
Qed.

Lemma add_page_skipped t p :
  UpdateDeviceHashes.retained p = false -> UpdateDeviceHashes.add_page t p = t.
Proof.
  unfold UpdateDeviceHashes.retained, UpdateDeviceHashes.add_page.
  destruct (UpdateDeviceHashes.PrefabName p) as [n|]; [|reflexivity].
  destruct (UpdateDeviceHashes.PrefabHash p) as [h|]; [|reflexivity].
  intros ->. reflexivity.
Qed.




Lemma clean_title_no_delimiter title :
  62 ∉ UpdateDeviceHashes.clean_title title.
Proof.
  unfold UpdateDeviceHashes.clean_title. intros H.
  eapply sublist_subseteq in H; [|apply strip_sublist].
  apply (replace_from_char_delete 62) in H as [H _]. apply H. reflexivity.
Qed.

Lemma clean_title_sublist title :
  UpdateDeviceHashes.clean_title title `sublist_of` title.
Proof.
  unfold UpdateDeviceHashes.clean_title.
  etransitivity; [apply strip_sublist|].
  etransitivity; apply replace_from_delete_sublist.
Qed.

(** What line 26 does to a title: the cleaned title holds no [>], it is a
    subsequence of the title, and a title without [<N:EN:] and without [>]
    is only trimmed. *)
Lemma cleaned_title_facts :
  forall title : Py.str,
    (62 ∉ UpdateDeviceHashes.clean_title title) /\
    (UpdateDeviceHashes.clean_title title `sublist_of` title) /\
    (Py.contains title (Py.lit "<N:EN:") = false ->
     62 ∉ title ->
     UpdateDeviceHashes.clean_title title = Py.strip title) /\
    (forall prefab_name,
       UpdateDeviceHashes.display_name title prefab_name
       = match UpdateDeviceHashes.clean_title title with
         | [] => prefab_name
         | _ :: _ => UpdateDeviceHashes.clean_title title
         end).
Proof.
  intros title. split; [apply clean_title_no_delimiter|].
  split; [apply clean_title_sublist|]. split.
  - intros Hm Hgt. unfold UpdateDeviceHashes.clean_title.
    rewrite (replace_absent title) by exact Hm.
    rewrite replace_absent by (apply contains_char_absent, Hgt).
    reflexivity.
  - intros n. apply display_name_cases.
Qed.

Lemma cleaned_title_facts_witness :
  UpdateDeviceHashes.clean_title (Py.lit " [b]Iron <Wall[/b] ")
  = Py.strip (Py.lit " [b]Iron <Wall[/b] ").
Proof.
  apply (proj1 (proj2 (proj2
           (cleaned_title_facts (Py.lit " [b]Iron <Wall[/b] "))))).
  - reflexivity.
  - rewrite list_elem_of_In. vm_compute. intuition discriminate.
Defined.

(** C9: the canonicalizer at a title with markup that is no localization
    wrapper.  The comment of line 25 announces that HTML tags are removed,
    the claim that such markup is passed through unchanged; the code does
    neither: of the title [<b>Bold</b>] it deletes the two [>] and keeps
    the rest, and the mangled name [<bBold</b] is what the page stores
    under its hash. *)
Theorem C9_unrecognized_markup_loses_its_gt :
  UpdateDeviceHashes.display_name (Py.lit "<b>Bold</b>") (Py.lit "DeviceA")
  = Py.lit "<bBold</b" /\
  UpdateDeviceHashes.display_name (Py.lit "<b>Bold</b>") (Py.lit "DeviceA")
  <> Py.lit "<b>Bold</b>" /\
  UpdateDeviceHashes.display_name (Py.lit "<b>Bold</b>") (Py.lit "DeviceA")
  <> Py.lit "Bold" /\
  UpdateDeviceHashes.hash_to_display_name
    (UpdateDeviceHashes.load [Samples.page_of "DeviceA" 1 "<b>Bold</b>"])
  = [(1, Py.lit "<bBold</b")].
Proof.
  split; [reflexivity|]. split; [discriminate|]. split; [discriminate|].
  vm_compute. reflexivity.
Qed.

(** ** The order of [sorted] *)

Lemma str_ltb_lexico (a b : Py.str) : Py.str_ltb a b = true <-> lexico a b.
Proof.
  revert b. induction a as [|x a IH]; intros [|y b]; simpl;
    try (split; [discriminate|intros []]).
  - split; [intros _; exact I|reflexivity].
  - rewrite orb_true_iff, andb_true_iff, Z.ltb_lt, Z.eqb_eq, IH.
    reflexivity.
Qed.

Lemma str_le_lexico (a b : Py.str) : Py.str_le a b <-> ~ lexico b a.
Proof.
  unfold Py.str_le. rewrite <- str_ltb_lexico.
  destruct (Py.str_ltb b a); split; congruence.
Qed.

#[local] Instance str_le_total : Total Py.str_le.
Proof.
  intros a b. rewrite !str_le_lexico.
  destruct (trichotomy (@lexico Py.str _) a b) as [H|[->|H]].
  - left. intros H'. apply (irreflexivity lexico a). by transitivity b.
  - left. apply irreflexivity, _.
  - right. intros H'. apply (irreflexivity lexico a). by transitivity b.
Qed.

#[local] Instance str_le_trans : Transitive Py.str_le.
Proof.
  intros a b c. rewrite !str_le_lexico. intros Hab Hbc Hca.
  destruct (trichotomy (@lexico Py.str _) a b) as [H|[->|H]]; [|tauto..].
  apply Hbc. by transitivity a.
Qed.

#[local] Instance str_le_antisym : AntiSymm (=) Py.str_le.
Proof.
  intros a b. rewrite !str_le_lexico. intros Hab Hba.
  destruct (trichotomy (@lexico Py.str _) a b) as [H|[->|H]]; tauto.
Qed.

Lemma sorted_str_ascending l : StronglySorted Py.str_le (Py.sorted_str l).
Proof. apply StronglySorted_merge_sort; apply _. Qed.

Lemma sorted_str_Permutation l : Py.sorted_str l ≡ₚ l.
Proof. apply merge_sort_Permutation. Qed.

(** The result of [sorted] does not depend on the order in which a
    dictionary hands out its keys. *)
Lemma sorted_str_order_irrelevant l1 l2 :
  l1 ≡ₚ l2 -> Py.sorted_str l1 = Py.sorted_str l2.
Proof.
  intros H. apply (StronglySorted_unique Py.str_le);
    [apply sorted_str_ascending..|].
  by rewrite !sorted_str_Permutation.
Qed.

Lemma strictly_ascending l :
  NoDup l -> StronglySorted Py.str_le l ->
  StronglySorted (fun a b => Py.str_ltb a b = true) l.
Proof.
  induction 2 as [|x l Hs IH Hx]; [constructor|].
  apply NoDup_cons in H as [Hnotin Hnd].
  constructor; [by apply IH|].
  rewrite Forall_forall in Hx |- *. intros y Hy.
  apply str_ltb_lexico.
  destruct (trichotomy (@lexico Py.str _) x y) as [H|[->|H]];
    [exact H|tauto|].
  apply Hx in Hy. apply str_le_lexico in Hy. tauto.
Qed.

Lemma sorted_int_ascending l : StronglySorted Z.le (Py.sorted_int l).
Proof. apply StronglySorted_merge_sort; apply _. Qed.

Lemma sorted_int_Permutation l : Py.sorted_int l ≡ₚ l.
Proof. apply merge_sort_Permutation. Qed.

Lemma strictly_ascending_int l :
  NoDup l -> StronglySorted Z.le l -> StronglySorted Z.lt l.
Proof.
  induction 2 as [|x l Hs IH Hx]; [constructor|].
  apply NoDup_cons in H as [Hnotin Hnd].
  constructor; [by apply IH|].
  rewrite Forall_forall in Hx |- *. intros y Hy.
  specialize (Hx y Hy). assert (x <> y) by congruence. lia.
Qed.

(** ** The two tables of [update_device_hashes.py] *)

Lemma device_map_keys_present (t : UpdateDeviceHashes.tables) name :
  name ∈ Py.sorted_str (map_to_list (UpdateDeviceHashes.device_map t)).*1 <->
  is_Some (UpdateDeviceHashes.device_map t !! name).
Proof.
  rewrite sorted_str_Permutation, list_elem_of_fmap. split.
  - intros ([k v] & -> & H). apply elem_of_map_to_list in H. by exists v.
  - intros [v H]. exists (name, v). split; [reflexivity|].
    by apply elem_of_map_to_list.
Qed.

Lemma hash_to_name_keys_present (t : UpdateDeviceHashes.tables) h :
  h ∈ Py.sorted_int (map_to_list (UpdateDeviceHashes.hash_to_name t)).*1 <->
  is_Some (UpdateDeviceHashes.hash_to_name t !! h).
Proof.
  rewrite sorted_int_Permutation, list_elem_of_fmap. split.
  - intros ([k v] & -> & H). apply elem_of_map_to_list in H. by exists v.
  - intros [v H]. exists (h, v). split; [reflexivity|].
    by apply elem_of_map_to_list.
Qed.

(** The names of [DEVICE_NAME_TO_HASH] are the sorted keys of [device_map]:
    the lookup of a key never fails. *)
Lemma name_to_hash_names t :
  (UpdateDeviceHashes.name_to_hash t).*1
  = Py.sorted_str (map_to_list (UpdateDeviceHashes.device_map t)).*1.
Proof.
  unfold UpdateDeviceHashes.name_to_hash.
  pose proof (fun name => proj1 (device_map_keys_present t name)) as Hk.
  revert Hk.
  generalize (Py.sorted_str (map_to_list (UpdateDeviceHashes.device_map t)).*1).
  intros l. induction l as [|k l IH]; intros Hk; [reflexivity|].
  destruct (Hk k ltac:(left)) as [[h d] Hkd].
  cbn. rewrite Hkd. cbn. f_equal. apply IH.
  intros name Hn. apply Hk. by right.
Qed.

Lemma hash_to_display_name_hashes t :
  (UpdateDeviceHashes.hash_to_display_name t).*1
  = Py.sorted_int (map_to_list (UpdateDeviceHashes.hash_to_name t)).*1.
Proof.
  unfold UpdateDeviceHashes.hash_to_display_name.
  pose proof (fun h => proj1 (hash_to_name_keys_present t h)) as Hk.
  revert Hk.
  generalize (Py.sorted_int (map_to_list (UpdateDeviceHashes.hash_to_name t)).*1).
  intros l. induction l as [|k l IH]; intros Hk; [reflexivity|].
  destruct (Hk k ltac:(left)) as [d Hkd].
  cbn. rewrite Hkd. cbn. f_equal. apply IH.
  intros name Hn. apply Hk. by right.
Qed.

Lemma name_to_hash_elem t name h :
  (name, h) ∈ UpdateDeviceHashes.name_to_hash t <->
  exists d, UpdateDeviceHashes.device_map t !! name = Some (h, d).
Proof.
  unfold UpdateDeviceHashes.name_to_hash. rewrite list_elem_of_omap. split.
  - intros (k & _ & Hk).
    destruct (UpdateDeviceHashes.device_map t !! k) as [[h' d]|] eqn:E;
      [|discriminate].
    injection Hk as -> ->. by exists d.
  - intros [d Hd]. exists name. split.
    + apply device_map_keys_present. by eexists.
    + by rewrite Hd.
Qed.

Lemma hash_to_display_name_elem t h d :
  (h, d) ∈ UpdateDeviceHashes.hash_to_display_name t <->
  UpdateDeviceHashes.hash_to_name t !! h = Some d.
Proof.
  unfold UpdateDeviceHashes.hash_to_display_name.
  rewrite list_elem_of_omap. split.
  - intros (k & _ & Hk).
    destruct (UpdateDeviceHashes.hash_to_name t !! k) as [d'|] eqn:E;
      [|discriminate].
    by injection Hk as -> ->.
  - intros Hd. exists h. split.
    + apply hash_to_name_keys_present. by eexists.
    + by rewrite Hd.
Qed.

Lemma name_to_hash_NoDup t : NoDup (UpdateDeviceHashes.name_to_hash t).*1.
Proof.
  rewrite name_to_hash_names, sorted_str_Permutation.
  apply NoDup_fst_map_to_list.
Qed.

Lemma hash_to_display_name_NoDup t :
  NoDup (UpdateDeviceHashes.hash_to_display_name t).*1.
Proof.
  rewrite hash_to_display_name_hashes, sorted_int_Permutation.
  apply NoDup_fst_map_to_list.
Qed.

Lemma name_to_hash_ascending t :
  StronglySorted (fun a b => Py.str_ltb a b = true)
                 (UpdateDeviceHashes.name_to_hash t).*1.
Proof.
  apply strictly_ascending; [apply name_to_hash_NoDup|].
  rewrite name_to_hash_names. apply sorted_str_ascending.
Qed.

Lemma hash_to_display_name_ascending t :
  StronglySorted Z.lt (UpdateDeviceHashes.hash_to_display_name t).*1.
Proof.
  apply strictly_ascending_int; [apply hash_to_display_name_NoDup|].
  rewrite hash_to_display_name_hashes. apply sorted_int_ascending.
Qed.

(** ** The last page wins *)

Section LastRetained.
Import UpdateDeviceHashes TableFacts.

Lemma last_retained_snoc sel pages q p :
  last_retained sel (pages ++ [q]) p <->
  (retained q = true /\ sel q /\ p = q) \/
  (~ (retained q = true /\ sel q) /\ last_retained sel pages p).
Proof.
  split.
  - intros (before & after & Heq & Hr & Hs & Hafter).
    destruct after as [|x after _] using rev_ind.
    + apply app_inj_tail in Heq as [_ ->]. left. auto.
    + rewrite app_comm_cons, app_assoc in Heq.
      apply app_inj_tail in Heq as [-> ->].
      apply Forall_app in Hafter as [Hafter Hq].
      rewrite Forall_singleton in Hq. right.
      split; [intros [? ?]; by apply Hq|].
      exists before, after. auto.
  - intros [(Hr & Hs & ->)|(Hq & before & after & -> & Hr & Hs & Hafter)].
    + exists pages, []. auto.
    + exists before, (after ++ [q]).
      rewrite <- app_assoc. simpl. repeat split; try assumption.
      apply Forall_app. split; [assumption|].
      rewrite Forall_singleton. intros ? ?. apply Hq. auto.
Qed.

Lemma last_retained_nil sel p : ~ last_retained sel [] p.
Proof. intros (before & after & H & _). by destruct before. Qed.

Lemma last_retained_elem sel pages p :
  last_retained sel pages p -> p ∈ pages /\ retained p = true /\ sel p.
Proof.
  intros (before & after & -> & Hr & Hs & _). split; [|auto].
  apply elem_of_app. right. by left.
Qed.

(** [hash_to_name[h]] is the display name of the last retained page of
    the source whose hash is [h]. *)
Lemma hash_to_name_last pages h d :
  hash_to_name (load pages) !! h = Some d <->
  exists p, last_retained (has_hash h) pages p /\ d = display_of p.
Proof.
  revert d. induction pages as [|q pages IH] using rev_ind; intros d.
  - simpl. rewrite lookup_empty. split; [discriminate|].
    intros (p & H & _). by apply last_retained_nil in H.
  - rewrite load_snoc.
    setoid_rewrite last_retained_snoc.
    destruct (retained q) eqn:Hr.
    + destruct (add_page_retained (load pages) q Hr)
        as (n & hq & Hn & Hh & _ & ->).
      simpl. rewrite lookup_insert. case_decide as Hdec.
      * subst hq. split.
        -- intros [= <-]. exists q. split; [left; auto|].
           unfold display_of. by rewrite Hn.
        -- intros (p & [(_ & _ & ->)|(Hno & _)] & ->).
           ++ unfold display_of. by rewrite Hn.
           ++ exfalso. apply Hno. auto.
      * rewrite IH. split.
        -- intros (p & Hp & ->). exists p. split; [right|reflexivity].
           split; [|exact Hp]. intros [_ Hs]. unfold has_hash in Hs. congruence.
        -- intros (p & [(_ & Hs & ->)|(_ & Hp)] & ->).
           ++ unfold has_hash in Hs. congruence.
           ++ eauto.
    + rewrite add_page_skipped by exact Hr. rewrite IH. split.
      * intros (p & Hp & ->). exists p. split; [right|reflexivity].
        split; [|exact Hp]. intros [? _]. congruence.
      * intros (p & [(? & _)|(_ & Hp)] & ->); [congruence|eauto].
Qed.

(** [device_map[name]] holds the hash and the display name of the last
    retained page of the source whose identifier is [name]. *)
Lemma device_map_last pages name h d :
  device_map (load pages) !! name = Some (h, d) <->
  exists p, last_retained (has_name name) pages p /\
            PrefabHash p = Some h /\ d = display_of p.
Proof.
  revert h d. induction pages as [|q pages IH] using rev_ind; intros h d.
  - simpl. rewrite lookup_empty. split; [discriminate|].
    intros (p & H & _). by apply last_retained_nil in H.
  - rewrite load_snoc.
    setoid_rewrite last_retained_snoc.
    destruct (retained q) eqn:Hr.
    + destruct (add_page_retained (load pages) q Hr)
        as (n & hq & Hn & Hh & _ & ->).
      simpl. rewrite lookup_insert. case_decide as Hdec.
      * subst n. split.
        -- intros [= <- <-]. exists q. split; [left; auto|].
           split; [exact Hh|]. unfold display_of. by rewrite Hn.
        -- intros (p & [(_ & _ & ->)|(Hno & _)] & Hp & ->).
           ++ unfold display_of. rewrite Hn. simpl. congruence.
           ++ exfalso. apply Hno. auto.
      * rewrite IH. split.
        -- intros (p & Hp & Hph & ->). exists p.
           split; [right|auto].
           split; [|exact Hp]. intros [_ Hs]. unfold has_name in Hs. congruence.
        -- intros (p & [(_ & Hs & ->)|(_ & Hp)] & Hph & ->).
           ++ unfold has_name in Hs. congruence.
           ++ eauto.
    + rewrite add_page_skipped by exact Hr. rewrite IH. split.
      * intros (p & Hp & Hph & ->). exists p. split; [right|auto].
        split; [|exact Hp]. intros [? _]. congruence.
      * intros (p & [(? & _)|(_ & Hp)] & Hph & ->); [congruence|eauto].
Qed.

End LastRetained.

Section Emitted.
Import UpdateDeviceHashes TableFacts.

Lemma last_retained_exists sel pages p :
  (forall q, Decision (sel q)) ->
  p ∈ pages -> retained p = true -> sel p ->
  exists p', last_retained sel pages p'.
Proof.
  intros Hdec. induction pages as [|q pages IH] using rev_ind.
  - intros H. inversion H.
  - intros Hin Hr Hs. setoid_rewrite last_retained_snoc.
    destruct (retained q) eqn:Hrq; [destruct (Hdec q) as [Hsq|Hsq]|].
    + exists q. left. auto.
    + apply elem_of_app in Hin as [Hin|Hin].
      * destruct (IH Hin Hr Hs) as [p' Hp']. exists p'. right. tauto.
      * apply list_elem_of_singleton in Hin as ->. tauto.
    + apply elem_of_app in Hin as [Hin|Hin].
      * destruct (IH Hin Hr Hs) as [p' Hp']. exists p'. right.
        split; [intros [? _]; congruence|exact Hp'].
      * apply list_elem_of_singleton in Hin as ->. congruence.
Qed.

#[local] Instance has_name_dec name q : Decision (has_name name q).
Proof. unfold has_name. apply _. Defined.

#[local] Instance has_hash_dec h q : Decision (has_hash h q).
Proof. unfold has_hash. apply _. Defined.

(** The identifiers of [DEVICE_NAME_TO_HASH] are those of the retained
    pages. *)
Lemma name_to_hash_names_retained pages name :
  name ∈ (name_to_hash (load pages)).*1 <->
  exists p, p ∈ pages /\ retained p = true /\ PrefabName p = Some name.
Proof.
  rewrite list_elem_of_fmap. split.
  - intros ([n h] & -> & H). apply name_to_hash_elem in H as [d H].
    apply device_map_last in H as (p & Hp & _).
    apply last_retained_elem in Hp. exists p. exact Hp.
  - intros (p & Hin & Hr & Hn).
    destruct (last_retained_exists (has_name name) pages p _ Hin Hr Hn)
      as [p' Hp'].
    destruct (PrefabHash p') as [h|] eqn:Hh.
    + exists (name, h). split; [reflexivity|].
      apply name_to_hash_elem. exists (display_of p').
      apply device_map_last. eauto.
    + apply last_retained_elem in Hp' as (_ & Hr' & _).
      unfold retained in Hr'. rewrite Hh in Hr'.
      destruct (PrefabName p'); discriminate.
Qed.

(** The keys of [HASH_TO_DISPLAY_NAME] are the hashes of the retained
    pages. *)
Lemma hash_to_display_name_hashes_retained pages h :
  h ∈ (hash_to_display_name (load pages)).*1 <->
  exists p, p ∈ pages /\ retained p = true /\ PrefabHash p = Some h.
Proof.
  rewrite list_elem_of_fmap. split.
  - intros ([h' d] & -> & H). apply hash_to_display_name_elem in H.
    apply hash_to_name_last in H as (p & Hp & _).
    apply last_retained_elem in Hp. exists p. exact Hp.
  - intros (p & Hin & Hr & Hh).
    destruct (last_retained_exists (has_hash h) pages p _ Hin Hr Hh)
      as [p' Hp'].
    exists (h, display_of p'). split; [reflexivity|].
    apply hash_to_display_name_elem, hash_to_name_last. eauto.
Qed.

End Emitted.

(** C7, as amended: for a hash that several identifiers share, the
    display name stored in [HASH_TO_DISPLAY_NAME] is that of the retained
    page that comes last in the page order of the source; each hash has one
    entry, and every identifier of a retained page appears exactly once in
    [DEVICE_NAME_TO_HASH]. *)
Theorem C7_last_page_of_source_wins_display_slot :
  forall pages : list UpdateDeviceHashes.page,
    (forall h d,
       (h, d) ∈ UpdateDeviceHashes.hash_to_display_name
                  (UpdateDeviceHashes.load pages) <->
       exists p, TableFacts.last_retained (TableFacts.has_hash h) pages p /\
                 d = TableFacts.display_of p) /\
    NoDup (UpdateDeviceHashes.hash_to_display_name
             (UpdateDeviceHashes.load pages)).*1 /\
    NoDup (UpdateDeviceHashes.name_to_hash (UpdateDeviceHashes.load pages)).*1 /\
    (forall name,
       name ∈ (UpdateDeviceHashes.name_to_hash
                 (UpdateDeviceHashes.load pages)).*1 <->
       exists p, p ∈ pages /\ UpdateDeviceHashes.retained p = true /\
                 UpdateDeviceHashes.PrefabName p = Some name).
Proof.
  intros pages. repeat split.
  - intros H. apply hash_to_display_name_elem in H.
    by apply hash_to_name_last.
  - intros H. apply hash_to_display_name_elem. by apply hash_to_name_last.
  - apply hash_to_display_name_NoDup.
  - apply name_to_hash_NoDup.
  - apply name_to_hash_names_retained.
  - apply name_to_hash_names_retained.
Qed.

(** C7, as stated, fails: ["StructureB"] comes after ["StructureA"] in
    sort order and both have hash 7, yet the slot of 7 holds the display
    name of ["StructureA"], whose page comes last in the source. *)
Lemma C7_counterexample :
  UpdateDeviceHashes.name_to_hash
    (UpdateDeviceHashes.load Samples.beta_then_alpha)
  = [(Py.lit "StructureA", 7); (Py.lit "StructureB", 7)] /\
  Py.str_ltb (Py.lit "StructureA") (Py.lit "StructureB") = true /\
  UpdateDeviceHashes.device_map
    (UpdateDeviceHashes.load Samples.beta_then_alpha) !! Py.lit "StructureB"
  = Some (7, Py.lit "Beta") /\
  UpdateDeviceHashes.hash_to_display_name
    (UpdateDeviceHashes.load Samples.beta_then_alpha)
  = [(7, Py.lit "Alpha")].
Proof. repeat split; vm_compute; reflexivity. Qed.

(** ** Text that [encode('utf-8')] accepts *)

Lemma text_lit s : text (Py.lit s).
Proof.
  unfold text, Py.lit. apply Forall_forall. intros c Hc.
  apply list_elem_of_fmap in Hc as (a & -> & _).
  pose proof (N_ascii_bounded a). unfold Py.scalar_value. lia.
Qed.

Lemma text_app a b : text a -> text b -> text (a ++ b).
Proof. intros Ha Hb. apply Forall_app. auto. Qed.

Lemma text_nl : text Py.nl.
Proof. repeat constructor; unfold Py.scalar_value; simpl; lia. Qed.

Lemma text_dquote : text Py.dquote.
Proof. repeat constructor; unfold Py.scalar_value; simpl; lia. Qed.

Lemma text_str_of_int n : text (Py.str_of_int n).
Proof. apply text_lit. Qed.

Lemma text_hex n : text (Py.hex n).
Proof. unfold Py.hex. destruct (n <? 0); apply text_app; apply text_lit. Qed.

Lemma text_sublist a b : a `sublist_of` b -> text b -> text a.
Proof.
  unfold text. rewrite !Forall_forall. intros Hs Hb c Hc.
  apply Hb. eapply sublist_subseteq; eassumption.
Qed.

Lemma text_replace_from old new k s :
  text new -> text s -> text (Py.replace_from old new k s).
Proof.
  intros Hnew. revert k. induction s as [|c t IH]; intros k Hs; simpl.
  - constructor.
  - apply Forall_cons in Hs as [Hc Ht]. destruct k as [|k]; [|by apply IH].
    destruct (Py.startswith (c :: t) old).
    + apply text_app; [exact Hnew|by apply IH].
    + constructor; [exact Hc|by apply IH].
Qed.

Lemma text_concat (ls : list Py.str) : Forall text ls -> text (concat ls).
Proof.
  induction 1 as [|l ls Hl _ IH]; simpl; [constructor|by apply text_app].
Qed.

Lemma text_encodes s : text s -> is_Some (Py.encode_utf8 s).
Proof. apply encode_utf8_total. Qed.

Create HintDb text.

#[local] Hint Resolve text_lit text_app text_nl text_dquote text_str_of_int
  text_hex text_concat : text.

Section TextOfTables.
Import UpdateDeviceHashes TableFacts.

Lemma text_display_name title name :
  text title -> text name -> text (display_name title name).
Proof.
  intros Ht Hn. rewrite display_name_cases.
  destruct (clean_title title) eqn:E; [exact Hn|]. rewrite <- E.
  eapply text_sublist; [apply clean_title_sublist|exact Ht].
Qed.

Lemma text_display_of pages p :
  Forall page_text pages -> p ∈ pages -> retained p = true ->
  text (display_of p) /\ forall name, PrefabName p = Some name -> text name.
Proof.
  intros Hall Hin Hr. rewrite Forall_forall in Hall.
  destruct (Hall p Hin) as [Hn Ht]. split; [|exact Hn].
  unfold display_of. unfold retained in Hr.
  destruct (PrefabName p) as [n|]; [|discriminate]. simpl.
  apply text_display_name; [|by apply Hn].
  destruct (Title p) as [ti|]; simpl; [by apply Ht|constructor].
Qed.

Lemma text_escape d : text d -> text (escape d).
Proof.
  intros Hd. unfold escape, Py.replace.
  apply text_replace_from;
    [repeat constructor; unfold Py.scalar_value; simpl; lia|].
  apply text_replace_from; [|exact Hd].
  repeat constructor; unfold Py.scalar_value; simpl; lia.
Qed.

Lemma text_rust_code pages :
  Forall page_text pages -> text (rust_code (load pages)).
Proof.
  intros Hall. unfold rust_code, header, middle, footer.
  assert (Hnames : Forall text (map name_line (name_to_hash (load pages)))).
  { apply Forall_forall. intros l Hl.
    apply list_elem_of_fmap in Hl as ([n h] & -> & He).
    apply name_to_hash_elem in He as [d Hd].
    apply device_map_last in Hd as (p & Hp & _).
    apply last_retained_elem in Hp as (Hin & Hr & Hn).
    destruct (text_display_of pages p Hall Hin Hr) as [_ Htn].
    pose proof (Htn n Hn) as Htext.
    unfold name_line. cbn [fst snd]. auto 20 with text. }
  assert (Hhashes : Forall text
                      (map hash_line (hash_to_display_name (load pages)))).
  { apply Forall_forall. intros l Hl.
    apply list_elem_of_fmap in Hl as ([h d] & -> & He).
    apply hash_to_display_name_elem in He.
    apply hash_to_name_last in He as (p & Hp & ->).
    apply last_retained_elem in Hp as (Hin & Hr & _).
    destruct (text_display_of pages p Hall Hin Hr) as [Htd _].
    unfold hash_line. cbn [fst snd].
    pose proof (text_escape _ Htd). auto 20 with text. }
  auto 30 with text.
Qed.

(** On a source whose strings are text, the script runs to its end. *)
Lemma run_parsed pages old :
  Forall page_text pages ->
  run (Parsed pages) old
  = Result ([loading_message; found_message (load pages); writing_message]
              ++ summary (load pages))
           (Some (rust_code (load pages))) Completed.
Proof.
  intros Hall. unfold run.
  destruct (text_encodes _ (text_rust_code pages Hall)) as [bytes ->].
  reflexivity.
Qed.

End TextOfTables.

Lemma Forall2_of_entries {A B C} (f : A -> B) (g : A -> C)
    (P : B -> C -> Prop) (l : list A) :
  Forall (fun x => P (f x) (g x)) l -> Forall2 P (f <$> l) (map g l).
Proof. induction 1; cbn; constructor; assumption. Qed.

(** C10: in the generated Rust file each line of [DEVICE_NAME_TO_HASH]
    pairs an identifier with the decimal text of the [PrefabHash] field of
    the last retained page with that identifier, and each line of
    [HASH_TO_DISPLAY_NAME] has for key the decimal text of the [PrefabHash]
    field of a retained page: line 47 and line 59 write the field as it was
    read.  No checksum is computed and none is compared: whatever the hash
    field of a page holds is written, as 42 for ["DeviceA"], whose CRC-32
    is 376252038. *)
Theorem C10_code_artifact_hash_is_source_field :
  (forall pages old,
     Forall TableFacts.page_text pages ->
     exists names name_lines hashes hash_lines,
       StronglySorted (fun a b => Py.str_ltb a b = true) names /\
       (forall name,
          name ∈ names <->
          exists p, p ∈ pages /\ UpdateDeviceHashes.retained p = true /\
                    UpdateDeviceHashes.PrefabName p = Some name) /\
       Forall2
         (fun name line =>
            exists p h,
              TableFacts.last_retained (TableFacts.has_name name) pages p /\
              UpdateDeviceHashes.PrefabHash p = Some h /\
              line = Py.lit "    " ++ Py.dquote ++ name ++ Py.dquote
                       ++ Py.lit " => " ++ Py.str_of_int h ++ Py.lit ","
                       ++ Py.nl)
         names name_lines /\
       StronglySorted Z.lt hashes /\
       (forall h,
          h ∈ hashes <->
          exists p, p ∈ pages /\ UpdateDeviceHashes.retained p = true /\
                    UpdateDeviceHashes.PrefabHash p = Some h) /\
       Forall2
         (fun h line =>
            exists p,
              TableFacts.last_retained (TableFacts.has_hash h) pages p /\
              UpdateDeviceHashes.PrefabHash p = Some h /\
              line = Py.lit "    " ++ Py.str_of_int h ++ Py.lit " => "
                       ++ Py.dquote
                       ++ UpdateDeviceHashes.escape (TableFacts.display_of p)
                       ++ Py.dquote ++ Py.lit "," ++ Py.nl)
         hashes hash_lines /\
       UpdateDeviceHashes.rust_code (UpdateDeviceHashes.load pages)
       = UpdateDeviceHashes.header ++ concat name_lines
           ++ UpdateDeviceHashes.middle ++ concat hash_lines
           ++ UpdateDeviceHashes.footer /\
       UpdateDeviceHashes.out_file
         (UpdateDeviceHashes.run (UpdateDeviceHashes.Parsed pages) old)
       = Some (UpdateDeviceHashes.header ++ concat name_lines
                 ++ UpdateDeviceHashes.middle ++ concat hash_lines
                 ++ UpdateDeviceHashes.footer) /\
       UpdateDeviceHashes.ended
         (UpdateDeviceHashes.run (UpdateDeviceHashes.Parsed pages) old)
       = UpdateDeviceHashes.Completed) /\
  (forall pages name h,
     (name, h) ∈ UpdateDeviceHashes.name_to_hash (UpdateDeviceHashes.load pages)
     <->
     exists p, TableFacts.last_retained (TableFacts.has_name name) pages p /\
               UpdateDeviceHashes.PrefabHash p = Some h) /\
  (forall pages h,
     h ∈ (UpdateDeviceHashes.hash_to_display_name
            (UpdateDeviceHashes.load pages)).*1 <->
     exists p, p ∈ pages /\ UpdateDeviceHashes.retained p = true /\
               UpdateDeviceHashes.PrefabHash p = Some h) /\
  (forall (name : Py.str) (h : Z) title,
     name <> [] ->
     UpdateDeviceHashes.name_to_hash
       (UpdateDeviceHashes.load [UpdateDeviceHashes.Page (Some name) (Some h) title])
     = [(name, h)]) /\
  UpdateDeviceHashes.name_to_hash
    (UpdateDeviceHashes.load Samples.arbitrary_hash)
  = [(Py.lit "DeviceA", 42)] /\
  GenerateHashes.signed_hash (Py.lit "DeviceA") = Some 376252038 /\
  UpdateDeviceHashes.run
    (UpdateDeviceHashes.Parsed Samples.arbitrary_hash) None
  = UpdateDeviceHashes.Result
      [UpdateDeviceHashes.loading_message;
       Py.lit "Found 1 devices";
       UpdateDeviceHashes.writing_message;
       [0x2705] ++ Py.lit " Done! Device hashes updated.";
       Py.lit "   - 1 device names mapped";
       Py.lit "   - 1 hash values mapped"]
      (Some (UpdateDeviceHashes.header
               ++ (Py.lit "    " ++ Py.dquote ++ Py.lit "DeviceA" ++ Py.dquote
                     ++ Py.lit " => 42," ++ Py.nl)
               ++ UpdateDeviceHashes.middle
               ++ (Py.lit "    42 => " ++ Py.dquote ++ Py.lit "Pipe Analyzer"
                     ++ Py.dquote ++ Py.lit "," ++ Py.nl)
               ++ UpdateDeviceHashes.footer))
      UpdateDeviceHashes.Completed.
Proof.
  split; [|split; [|split; [|split; [|repeat split; vm_compute; reflexivity]]]].
  - intros pages old Htext.
    exists (UpdateDeviceHashes.name_to_hash (UpdateDeviceHashes.load pages)).*1,
           (map UpdateDeviceHashes.name_line
                (UpdateDeviceHashes.name_to_hash (UpdateDeviceHashes.load pages))),
           (UpdateDeviceHashes.hash_to_display_name
              (UpdateDeviceHashes.load pages)).*1,
           (map UpdateDeviceHashes.hash_line
                (UpdateDeviceHashes.hash_to_display_name
                   (UpdateDeviceHashes.load pages))).
    split; [apply name_to_hash_ascending|].
    split; [apply name_to_hash_names_retained|]. split.
    { apply Forall2_of_entries, Forall_forall. intros [n h] He.
      apply name_to_hash_elem in He as [d Hd].
      apply device_map_last in Hd as (p & Hp & Hh & _).
      exists p, h. auto. }
    split; [apply hash_to_display_name_ascending|].
    split; [apply hash_to_display_name_hashes_retained|]. split.
    { apply Forall2_of_entries, Forall_forall. intros [h d] He.
      apply hash_to_display_name_elem in He.
      apply hash_to_name_last in He as (p & Hp & ->).
      exists p. split; [exact Hp|].
      apply last_retained_elem in Hp as (_ & _ & Hh). auto. }
    rewrite (run_parsed pages old Htext). auto.
  - intros pages name h. rewrite name_to_hash_elem. split.
    + intros [d Hd]. apply device_map_last in Hd as (p & Hp & Hh & _). eauto.
    + intros (p & Hp & Hh). exists (TableFacts.display_of p).
      apply device_map_last. eauto.
  - apply hash_to_display_name_hashes_retained.
  - intros name h title Hn.
    unfold UpdateDeviceHashes.load, UpdateDeviceHashes.add_page,
      UpdateDeviceHashes.name_to_hash. simpl.
    apply truthy_nonempty in Hn. rewrite Hn. simpl.
    rewrite insert_empty, map_to_list_singleton. cbn.
    rewrite lookup_singleton_eq. reflexivity.
Qed.

Lemma C10_witness :
  exists names name_lines hashes hash_lines,
    StronglySorted (fun a b => Py.str_ltb a b = true) names /\
    (forall name,
       name ∈ names <->
       exists p, p ∈ Samples.arbitrary_hash /\
                 UpdateDeviceHashes.retained p = true /\
                 UpdateDeviceHashes.PrefabName p = Some name) /\
    Forall2
      (fun name line =>
         exists p h,
           TableFacts.last_retained (TableFacts.has_name name)
             Samples.arbitrary_hash p /\
           UpdateDeviceHashes.PrefabHash p = Some h /\
           line = Py.lit "    " ++ Py.dquote ++ name ++ Py.dquote
                    ++ Py.lit " => " ++ Py.str_of_int h ++ Py.lit ","
                    ++ Py.nl)
      names name_lines /\
    StronglySorted Z.lt hashes /\
    (forall h,
       h ∈ hashes <->
       exists p, p ∈ Samples.arbitrary_hash /\
                 UpdateDeviceHashes.retained p = true /\
                 UpdateDeviceHashes.PrefabHash p = Some h) /\
    Forall2
      (fun h line =>
         exists p,
           TableFacts.last_retained (TableFacts.has_hash h)
             Samples.arbitrary_hash p /\
           UpdateDeviceHashes.PrefabHash p = Some h /\
           line = Py.lit "    " ++ Py.str_of_int h ++ Py.lit " => "
                    ++ Py.dquote
                    ++ UpdateDeviceHashes.escape (TableFacts.display_of p)
                    ++ Py.dquote ++ Py.lit "," ++ Py.nl)
      hashes hash_lines /\
    UpdateDeviceHashes.rust_code
      (UpdateDeviceHashes.load Samples.arbitrary_hash)
    = UpdateDeviceHashes.header ++ concat name_lines
        ++ UpdateDeviceHashes.middle ++ concat hash_lines
        ++ UpdateDeviceHashes.footer /\
    UpdateDeviceHashes.out_file
      (UpdateDeviceHashes.run
         (UpdateDeviceHashes.Parsed Samples.arbitrary_hash) None)
    = Some (UpdateDeviceHashes.header ++ concat name_lines
              ++ UpdateDeviceHashes.middle ++ concat hash_lines
              ++ UpdateDeviceHashes.footer) /\
    UpdateDeviceHashes.ended
      (UpdateDeviceHashes.run
         (UpdateDeviceHashes.Parsed Samples.arbitrary_hash) None)
    = UpdateDeviceHashes.Completed.
Proof.
  apply (proj1 C10_code_artifact_hash_is_source_field
           Samples.arbitrary_hash None).
  repeat constructor; intros ? [= <-]; apply text_lit.
Defined.

(** ** The two counts of the summary *)

Lemma size_list_to_set_bound `{Countable A} (l : list A) :
  (size (list_to_set l : gset A) <= length l)%nat /\
  (~ NoDup l -> (size (list_to_set l : gset A) < length l)%nat).
Proof.
  induction l as [|x l [IHle IHlt]].
  - rewrite list_to_set_nil, size_empty. split; [simpl; lia|].
    intros Hn. destruct Hn. constructor.
  - rewrite list_to_set_cons. cbn [length].
    destruct (decide (x ∈ l)) as [Hin|Hnotin].
    + assert (({[x]} ∪ list_to_set l : gset A) = list_to_set l) as ->.
      { apply subseteq_union_1_L, singleton_subseteq_l.
        by apply elem_of_list_to_set. }
      split; lia.
    + rewrite size_union
        by (apply disjoint_singleton_l; by rewrite elem_of_list_to_set).
      rewrite size_singleton. split; [lia|].
      intros Hn. assert (~ NoDup l) as Hl.
      { intros Hl. apply Hn. by constructor. }
      apply IHlt in Hl. lia.
Qed.

Lemma omap_collision_dup {A B} (f : A -> option B) (l : list A) p q h :
  p ∈ l -> q ∈ l -> p <> q -> f p = Some h -> f q = Some h ->
  ~ NoDup (omap f l).
Proof.
  induction l as [|x l IH]; intros Hp Hq Hne Hfp Hfq Hnd.
  - inversion Hp.
  - assert (Hmem : forall y, y ∈ l -> f y = Some h -> h ∈ omap f l).
    { intros y Hy Hfy. apply list_elem_of_omap. eauto. }
    apply elem_of_cons in Hp as [->|Hp]; apply elem_of_cons in Hq as [->|Hq].
    + congruence.
    + cbn in Hnd. rewrite Hfp in Hnd. apply NoDup_cons in Hnd as [Hnd _].
      apply Hnd. eauto.
    + cbn in Hnd. rewrite Hfq in Hnd. apply NoDup_cons in Hnd as [Hnd _].
      apply Hnd. eauto.
    + apply (IH Hp Hq Hne Hfp Hfq). cbn in Hnd.
      destruct (f x); [by apply NoDup_cons in Hnd as [_ ?]|exact Hnd].
Qed.

Section Counts.
Import UpdateDeviceHashes TableFacts.

Lemma retained_lengths pages :
  length (retained_names pages) = length (retained_hashes pages).
Proof.
  unfold retained_names, retained_hashes.
  induction pages as [|p pages IH]; [reflexivity|]. cbn.
  unfold retained.
  destruct (PrefabName p) as [n|], (PrefabHash p) as [h|]; simpl;
    try exact IH.
  destruct (Py.truthy n); simpl; [f_equal|]; exact IH.
Qed.

Lemma dom_device_map pages :
  dom (device_map (load pages)) = list_to_set (retained_names pages).
Proof.
  induction pages as [|q pages IH] using rev_ind.
  - simpl. apply dom_empty_L.
  - rewrite load_snoc. unfold retained_names in *.
    rewrite omap_app, list_to_set_app_L, <- IH. cbn.
    destruct (retained q) eqn:Hr.
    + destruct (add_page_retained (load pages) q Hr)
        as (n & hq & -> & Hh & _ & ->).
      simpl. rewrite dom_insert_L.
      rewrite (right_id_L ∅ (∪)). apply (comm_L (∪)).
    + rewrite add_page_skipped by exact Hr.
      simpl. symmetry. apply (right_id_L ∅ (∪)).
Qed.

Lemma dom_hash_to_name pages :
  dom (hash_to_name (load pages)) = list_to_set (retained_hashes pages).
Proof.
  induction pages as [|q pages IH] using rev_ind.
  - simpl. apply dom_empty_L.
  - rewrite load_snoc. unfold retained_hashes in *.
    rewrite omap_app, list_to_set_app_L, <- IH. cbn.
    destruct (retained q) eqn:Hr.
    + destruct (add_page_retained (load pages) q Hr)
        as (n & hq & Hn & -> & _ & ->).
      simpl. rewrite dom_insert_L.
      rewrite (right_id_L ∅ (∪)). apply (comm_L (∪)).
    + rewrite add_page_skipped by exact Hr.
      simpl. symmetry. apply (right_id_L ∅ (∪)).
Qed.

(** With pairwise distinct identifiers in the source, a collision makes
    the count of hash values smaller than the count of names. *)
Lemma collision_lowers_hash_count pages a b h da db :
  NoDup (retained_names pages) ->
  a <> b ->
  device_map (load pages) !! a = Some (h, da) ->
  device_map (load pages) !! b = Some (h, db) ->
  (size (hash_to_name (load pages)) < size (device_map (load pages)))%nat.
Proof.
  intros Hnd Hab Ha Hb.
  rewrite <- (size_dom (D := gset Z)), <- (size_dom (D := gset Py.str)).
  rewrite dom_device_map, dom_hash_to_name.
  rewrite (size_list_to_set (retained_names pages)) by exact Hnd.
  rewrite retained_lengths.
  apply size_list_to_set_bound.
  apply device_map_last in Ha as (pa & Hpa & Hha & _).
  apply device_map_last in Hb as (pb & Hpb & Hhb & _).
  apply last_retained_elem in Hpa as (Hina & Hra & Hna).
  apply last_retained_elem in Hpb as (Hinb & Hrb & Hnb).
  unfold retained_hashes.
  apply (omap_collision_dup _ pages pa pb h); try assumption.
  - intros ->. unfold has_name in *. congruence.
  - by rewrite Hra.
  - by rewrite Hrb.
Qed.

End Counts.

(** C6, as amended: two distinct identifiers of the table with one hash do
    not make the run fail (on a source whose strings are text); no record
    of the collision is made: the console ends with the summary, which only
    counts the names and the hash values, the second count being the
    smaller one when the source names no identifier twice; both identifiers
    are in [DEVICE_NAME_TO_HASH], and [HASH_TO_DISPLAY_NAME] has exactly one
    entry for the shared hash. *)
Theorem C6_collision_is_not_fatal_and_only_counted :
  forall pages old (a b : Py.str) h da db,
    Forall TableFacts.page_text pages ->
    a <> b ->
    UpdateDeviceHashes.device_map (UpdateDeviceHashes.load pages) !! a
    = Some (h, da) ->
    UpdateDeviceHashes.device_map (UpdateDeviceHashes.load pages) !! b
    = Some (h, db) ->
    UpdateDeviceHashes.ended
      (UpdateDeviceHashes.run (UpdateDeviceHashes.Parsed pages) old)
    = UpdateDeviceHashes.Completed /\
    UpdateDeviceHashes.console
      (UpdateDeviceHashes.run (UpdateDeviceHashes.Parsed pages) old)
    = [UpdateDeviceHashes.loading_message;
       UpdateDeviceHashes.found_message (UpdateDeviceHashes.load pages);
       UpdateDeviceHashes.writing_message;
       [0x2705] ++ Py.lit " Done! Device hashes updated.";
       Py.lit "   - "
         ++ Py.str_of_int
              (Z.of_nat (size (UpdateDeviceHashes.device_map
                                 (UpdateDeviceHashes.load pages))))
         ++ Py.lit " device names mapped";
       Py.lit "   - "
         ++ Py.str_of_int
              (Z.of_nat (size (UpdateDeviceHashes.hash_to_name
                                 (UpdateDeviceHashes.load pages))))
         ++ Py.lit " hash values mapped"] /\
    (NoDup (TableFacts.retained_names pages) ->
     (size (UpdateDeviceHashes.hash_to_name (UpdateDeviceHashes.load pages))
      < size (UpdateDeviceHashes.device_map (UpdateDeviceHashes.load pages)))%nat) /\
    (a, h) ∈ UpdateDeviceHashes.name_to_hash (UpdateDeviceHashes.load pages) /\
    (b, h) ∈ UpdateDeviceHashes.name_to_hash (UpdateDeviceHashes.load pages) /\
    NoDup (UpdateDeviceHashes.hash_to_display_name
             (UpdateDeviceHashes.load pages)).*1 /\
    exists d,
      (h, d) ∈ UpdateDeviceHashes.hash_to_display_name
                 (UpdateDeviceHashes.load pages) /\
      forall d',
        (h, d') ∈ UpdateDeviceHashes.hash_to_display_name
                    (UpdateDeviceHashes.load pages) -> d' = d.
Proof.
  intros pages old a b h da db Htext Hab Ha Hb.
  rewrite (run_parsed pages old Htext). simpl.
  split; [reflexivity|]. split; [reflexivity|]. split.
  { intros Hnd. eapply collision_lowers_hash_count; eassumption. }
  split; [apply name_to_hash_elem; eauto|].
  split; [apply name_to_hash_elem; eauto|].
  split; [apply hash_to_display_name_NoDup|].
  assert (Hh : h ∈ (UpdateDeviceHashes.hash_to_display_name
                      (UpdateDeviceHashes.load pages)).*1).
  { apply hash_to_display_name_hashes_retained.
    apply device_map_last in Ha as (p & Hp & Hh & _).
    apply last_retained_elem in Hp as (Hin & Hr & _). eauto. }
  apply list_elem_of_fmap in Hh as ([h' d] & Heq & Hd). simpl in Heq. subst h'.
  exists d. split; [exact Hd|]. intros d' Hd'.
  apply hash_to_display_name_elem in Hd, Hd'. congruence.
Qed.

Lemma C6_witness :
  UpdateDeviceHashes.ended
    (UpdateDeviceHashes.run
       (UpdateDeviceHashes.Parsed Samples.first_two_collide) None)
  = UpdateDeviceHashes.Completed.
Proof.
  refine (proj1 (C6_collision_is_not_fatal_and_only_counted
                   Samples.first_two_collide None
                   (Py.lit "StructureA") (Py.lit "StructureB") 1
                   (Py.lit "Alpha") (Py.lit "Beta") _ _ _ _)).
  - repeat constructor; intros ? [= <-]; apply text_lit.
  - discriminate.
  - vm_compute. reflexivity.
  - vm_compute. reflexivity.
Defined.

(** C6, as stated, fails: in one source ["StructureA"] and ["StructureB"]
    collide, in the other ["StructureB"] and ["StructureC"]; the console
    output of the two runs, summary included, is the same, so the summary
    records neither collision; and the display name ["Alpha"], overwritten
    in the slot of hash 1, is in no entry of [HASH_TO_DISPLAY_NAME].  When
    an identifier is listed twice the two counts can even agree: the
    summary of a run with a collision is then that of a run without. *)
Lemma C6_counterexample :
  UpdateDeviceHashes.name_to_hash
    (UpdateDeviceHashes.load Samples.first_two_collide)
  = [(Py.lit "StructureA", 1); (Py.lit "StructureB", 1);
     (Py.lit "StructureC", 2)] /\
  UpdateDeviceHashes.name_to_hash
    (UpdateDeviceHashes.load Samples.last_two_collide)
  = [(Py.lit "StructureA", 1); (Py.lit "StructureB", 2);
     (Py.lit "StructureC", 2)] /\
  UpdateDeviceHashes.console
    (UpdateDeviceHashes.run
       (UpdateDeviceHashes.Parsed Samples.first_two_collide) None)
  = UpdateDeviceHashes.console
      (UpdateDeviceHashes.run
         (UpdateDeviceHashes.Parsed Samples.last_two_collide) None) /\
  UpdateDeviceHashes.summary
    (UpdateDeviceHashes.load Samples.first_two_collide)
  = [[0x2705] ++ Py.lit " Done! Device hashes updated.";
     Py.lit "   - 3 device names mapped";
     Py.lit "   - 2 hash values mapped"] /\
  UpdateDeviceHashes.hash_to_display_name
    (UpdateDeviceHashes.load Samples.first_two_collide)
  = [(1, Py.lit "Beta"); (2, Py.lit "Gamma")] /\
  UpdateDeviceHashes.name_to_hash
    (UpdateDeviceHashes.load Samples.relisted_then_collide)
  = [(Py.lit "StructureA", 2); (Py.lit "StructureB", 2)] /\
  UpdateDeviceHashes.name_to_hash
    (UpdateDeviceHashes.load Samples.no_collision)
  = [(Py.lit "StructureA", 1); (Py.lit "StructureB", 2)] /\
  UpdateDeviceHashes.summary
    (UpdateDeviceHashes.load Samples.relisted_then_collide)
  = UpdateDeviceHashes.summary
      (UpdateDeviceHashes.load Samples.no_collision).
Proof. repeat split; vm_compute; reflexivity. Qed.

(** ** A source that cannot be loaded *)

(** C8: when the source is absent or cannot be parsed, either script ends
    without completing (by [exit()] or by an exception) and before it
    opens its destination: the artifact file is what it was, or is still
    missing. *)
Theorem C8_source_failure_leaves_artifacts_untouched :
  (forall src old,
     TextFacts.unavailable src ->
     GenerateHashes.out_file (GenerateHashes.run src old) = old /\
     GenerateHashes.ended (GenerateHashes.run src old)
     <> GenerateHashes.Completed /\
     GenerateHashes.SuccessMessage ∉ GenerateHashes.console (GenerateHashes.run src old)) /\
  (forall src old,
     TableFacts.unavailable src ->
     UpdateDeviceHashes.out_file (UpdateDeviceHashes.run src old) = old /\
     UpdateDeviceHashes.ended (UpdateDeviceHashes.run src old)
     <> UpdateDeviceHashes.Completed /\
     UpdateDeviceHashes.console (UpdateDeviceHashes.run src old)
     = [UpdateDeviceHashes.loading_message]).
Proof.
  split.
  - intros [| |things] old Hsrc; [| |destruct Hsrc];
      cbn [GenerateHashes.run GenerateHashes.out_file GenerateHashes.ended
           GenerateHashes.console];
      (split; [reflexivity|]); (split; [discriminate|]).
    + intros H. apply list_elem_of_singleton in H. discriminate.
    + intros H. inversion H.
  - intros [| | |pages] old Hsrc; [| | |destruct Hsrc];
      cbn [UpdateDeviceHashes.run UpdateDeviceHashes.out_file
           UpdateDeviceHashes.ended UpdateDeviceHashes.console];
      (split; [reflexivity|]); (split; [discriminate|reflexivity]).
Qed.

Lemma C8_witness :
  GenerateHashes.out_file
    (GenerateHashes.run GenerateHashes.Absent (Some (Py.lit "previous run")))
  = Some (Py.lit "previous run") /\
  UpdateDeviceHashes.out_file
    (UpdateDeviceHashes.run UpdateDeviceHashes.Malformed None)
  = None.
Proof.
  split.
  - apply (proj1 C8_source_failure_leaves_artifacts_untouched
             GenerateHashes.Absent (Some (Py.lit "previous run"))).
    exact I.
  - apply (proj2 C8_source_failure_leaves_artifacts_untouched
             UpdateDeviceHashes.Malformed None).
    exact I.
Defined.

(** ** The dictionary of [generate_hashes.py] *)

Section TextDictionary.
Import GenerateHashes TextFacts.

Lemma text_load_snoc things t :
  load (things ++ [t]) = store_thing (load things) t.
Proof. unfold load. apply fold_left_app. Qed.

Lemma last_with_key_snoc k things q t :
  last_with_key k (things ++ [q]) t <->
  (Key q = k /\ t = q) \/ (Key q <> k /\ last_with_key k things t).
Proof.
  split.
  - intros (before & after & Heq & Hk & Hafter).
    destruct after as [|x after _] using rev_ind.
    + apply app_inj_tail in Heq as [_ ->]. left. auto.
    + rewrite app_comm_cons, app_assoc in Heq.
      apply app_inj_tail in Heq as [-> ->].
      apply Forall_app in Hafter as [Hafter Hq].
      rewrite Forall_singleton in Hq. right. split; [exact Hq|].
      exists before, after. auto.
  - intros [(Hk & ->)|(Hq & before & after & -> & Hk & Hafter)].
    + exists things, []. auto.
    + exists before, (after ++ [q]).
      rewrite <- app_assoc. simpl. repeat split; try assumption.
      apply Forall_app. split; [assumption|].
      by rewrite Forall_singleton.
Qed.

(** [d[k]] is the value of the last record with key [k], or [''] when
    that record has no [<Value>]: nothing is skipped, the last write
    wins. *)
Lemma load_last things k v :
  load things !! k = Some v <->
  exists t, last_with_key k things t /\ v = default [] (Value t).
Proof.
  revert v. induction things as [|q things IH] using rev_ind; intros v.
  - unfold load. simpl. rewrite lookup_empty. split; [discriminate|].
    intros (t & (before & after & H & _) & _). by destruct before.
  - rewrite text_load_snoc. setoid_rewrite last_with_key_snoc.
    unfold store_thing. rewrite lookup_insert. case_decide as Hdec.
    + split.
      * intros [= <-]. exists q. auto.
      * intros (t & [(_ & ->)|(Hno & _)] & ->); [reflexivity|].
        congruence.
    + rewrite IH. split.
      * intros (t & Ht & ->). exists t. auto.
      * intros (t & [(Hk & ->)|(_ & Ht)] & ->); [congruence|eauto].
Qed.

Lemma last_with_key_elem k things t :
  last_with_key k things t -> t ∈ things /\ Key t = k.
Proof.
  intros (before & after & -> & Hk & _). split; [|exact Hk].
  apply elem_of_app. right. by left.
Qed.

Lemma last_with_key_exists k things t :
  t ∈ things -> Key t = k -> exists t', last_with_key k things t'.
Proof.
  induction things as [|q things IH] using rev_ind.
  - intros H. inversion H.
  - intros Hin Hk. setoid_rewrite last_with_key_snoc.
    destruct (decide (Key q = k)) as [Hq|Hq]; [eauto|].
    apply elem_of_app in Hin as [Hin|Hin].
    + destruct (IH Hin Hk) as [t' Ht']. eauto.
    + apply list_elem_of_singleton in Hin as ->. congruence.
Qed.

(** The keys of the dictionary are the keys of the records. *)
Lemma load_keys things k :
  is_Some (load things !! k) <-> exists t, t ∈ things /\ Key t = k.
Proof.
  split.
  - intros [v Hv]. apply load_last in Hv as (t & Ht & _).
    apply last_with_key_elem in Ht. eauto.
  - intros (t & Hin & Hk).
    destruct (last_with_key_exists k things t Hin Hk) as [t' Ht'].
    exists (default [] (Value t')). apply load_last. eauto.
Qed.

(** When every key is a string, [sorted] succeeds: its result is
    strictly ascending and holds the keys of the dictionary, each once. *)
Lemma sorted_keys_ok (d : gmap (option Py.str) Py.str) :
  (forall k, is_Some (d !! k) -> is_Some k) ->
  exists names,
    sorted_keys d = inl names /\
    StronglySorted (fun a b => Py.str_ltb a b = true) names /\
    forall name, name ∈ names <-> is_Some (d !! Some name).
Proof.
  intros Hkeys. unfold sorted_keys.
  assert (Hall : Forall (is_Some ∘ id) (map_to_list d).*1).
  { apply Forall_forall. intros k Hk.
    apply list_elem_of_fmap in Hk as ([k' v] & -> & Hin).
    apply elem_of_map_to_list in Hin. apply Hkeys. by exists v. }
  apply mapM_is_Some in Hall as [names Hnames]. rewrite Hnames.
  apply mapM_Some in Hnames.
  assert (Heq : (map_to_list d).*1 = Some <$> names).
  { clear Hkeys. induction Hnames as [|k n ks ns Hk _ IH]; [reflexivity|].
    simpl in Hk. subst k. cbn. by rewrite IH. }
  assert (Hnd : NoDup names).
  { apply (NoDup_fmap_1 Some). rewrite <- Heq. apply NoDup_fst_map_to_list. }
  exists (Py.sorted_str names). split; [reflexivity|]. split.
  - apply strictly_ascending; [|apply sorted_str_ascending].
    by rewrite sorted_str_Permutation.
  - intros name. rewrite sorted_str_Permutation.
    rewrite <- (list_elem_of_fmap_inj Some), <- Heq.
    rewrite list_elem_of_fmap. split.
    + intros ([k v] & -> & Hin). apply elem_of_map_to_list in Hin.
      by exists v.
    + intros [v Hv]. exists (Some name, v). split; [reflexivity|].
      by apply elem_of_map_to_list.
Qed.

Lemma text_text_line name u v :
  text name -> text v -> text (text_line name u v).
Proof. intros Hn Hv. unfold text_line. auto 30 with text. Qed.

(** The loop over the sorted names writes one line per name. *)
Lemma write_entries_ok d names written :
  Forall (fun name =>
            text name /\ exists v, d !! Some name = Some v /\ text v) names ->
  exists lines,
    Forall2 (fun name line =>
               exists u v,
                 unsigned_hash name = Some u /\ d !! Some name = Some v /\
                 line = text_line name u v) names lines /\
    write_entries d names written = (written ++ concat lines, Completed).
Proof.
  intros Hnames. revert written.
  induction Hnames as [|name names (Hn & v & Hv & Htv) _ IH]; intros written.
  - exists []. split; [constructor|]. simpl. by rewrite app_nil_r.
  - destruct (text_encodes name Hn) as [bytes Hb].
    pose proof (text_text_line name (Zlib.crc32 bytes) v Hn Htv) as Hl.
    destruct (text_encodes _ Hl) as [lb Hlb].
    destruct (IH (written ++ text_line name (Zlib.crc32 bytes) v))
      as (lines & Hlines & Hw).
    exists (text_line name (Zlib.crc32 bytes) v :: lines). split.
    + constructor; [|exact Hlines].
      exists (Zlib.crc32 bytes), v. unfold unsigned_hash. rewrite Hb. auto.
    + cbn [write_entries]. rewrite Hb, Hv, Hlb, Hw.
      cbn [concat]. by rewrite app_assoc.
Qed.

End TextDictionary.

Lemma hex_nonneg u : 0 <= u -> Py.hex u = Py.lit "0x" ++ Py.hex_digits u.
Proof.
  intros Hu. unfold Py.hex.
  destruct (Z.ltb_spec u 0); [lia|reflexivity].
Qed.

Lemma hex_digits_lowercase n :
  Forall (fun c => c ∈ Py.lit "0123456789abcdef") (Py.hex_digits n).
Proof.
  unfold Py.hex_digits. generalize (N.to_hex_uint (Z.to_N n)). intros d.
  assert (Hin : forall a : ascii,
            In a (list_ascii_of_string "0123456789abcdef") ->
            Z.of_N (N_of_ascii a) ∈ Py.lit "0123456789abcdef").
  { intros a Ha. unfold Py.lit. apply list_elem_of_fmap. exists a.
    split; [reflexivity|]. by apply list_elem_of_In. }
  assert (He : Forall (fun c => c ∈ Py.lit "0123456789abcdef")
                 (Py.lit (HexadecimalString.NilEmpty.string_of_uint d))).
  { induction d; [constructor|..];
      (constructor; [apply Hin; simpl; tauto|exact IHd]). }
  destruct d; try exact He.
  constructor; [apply Hin; simpl; tauto|constructor].
Qed.

(** ** The text reference *)

(** C4, as amended: from a source whose records all have a key, the text
    emitter writes exactly one line per identifier, in strictly ascending
    identifier order, each line being the double-quoted identifier, the
    signed decimal hash, the [0x]-prefixed hash in lowercase hexadecimal
    digits and the double-quoted display value, separated by one space and
    ended by a newline; the display value is the raw [<Value>] text of the
    last record with that identifier (empty when it has none), not a
    canonicalized name. *)
Theorem C4_text_emitter_one_sorted_line_per_identifier :
  forall things old,
    Forall TextFacts.keyed_text things ->
    exists names lines,
      StronglySorted (fun a b => Py.str_ltb a b = true) names /\
      (forall name,
         name ∈ names <->
         exists t, t ∈ things /\ GenerateHashes.Key t = Some name) /\
      Forall2
        (fun name line =>
           exists u t,
             GenerateHashes.unsigned_hash name = Some u /\
             TextFacts.last_with_key (Some name) things t /\
             Forall (fun c => c ∈ Py.lit "0123456789abcdef") (Py.hex_digits u) /\
             line = Py.dquote ++ name ++ Py.dquote ++ Py.lit " "
                      ++ Py.str_of_int (GenerateHashes.to_signed u) ++ Py.lit " "
                      ++ (Py.lit "0x" ++ Py.hex_digits u) ++ Py.lit " "
                      ++ Py.dquote ++ default [] (GenerateHashes.Value t)
                      ++ Py.dquote ++ Py.nl)
        names lines /\
      GenerateHashes.run (GenerateHashes.Parsed things) old
      = GenerateHashes.Result [GenerateHashes.SuccessMessage]
          (Some (concat lines)) GenerateHashes.Completed.
Proof.
  intros things old Hall.
  assert (Hkeys : forall k,
            is_Some (GenerateHashes.load things !! k) -> is_Some k).
  { intros k Hk. apply load_keys in Hk as (t & Hin & <-).
    rewrite Forall_forall in Hall.
    destruct (Hall t Hin) as [(k & -> & _) _]. by eexists. }
  destruct (sorted_keys_ok _ Hkeys) as (names & Hsorted & Hasc & Hmem).
  assert (Hnames : Forall (fun name =>
              text name /\
              exists v, GenerateHashes.load things !! Some name = Some v /\
                        text v) names).
  { apply Forall_forall. intros name Hn.
    apply Hmem in Hn as [v Hv]. pose proof Hv as Hv'.
    apply load_last in Hv as (t & Ht & ->).
    apply last_with_key_elem in Ht as [Hin Hk].
    rewrite Forall_forall in Hall.
    destruct (Hall t Hin) as [(k & Hk' & Htk) Htv].
    split; [congruence|]. eexists. split; [exact Hv'|].
    destruct (GenerateHashes.Value t) as [v|]; simpl; [by apply Htv|constructor]. }
  destruct (write_entries_ok _ names [] Hnames) as (lines & Hlines & Hw).
  exists names, lines. split; [exact Hasc|]. split; [|split].
  - intros name. rewrite Hmem. apply load_keys.
  - eapply Forall2_impl; [exact Hlines|].
    intros name line (u & v & Hu & Hv & ->).
    apply load_last in Hv as (t & Ht & ->).
    exists u, t. split; [exact Hu|]. split; [exact Ht|].
    split; [apply hex_digits_lowercase|].
    unfold GenerateHashes.text_line.
    rewrite hex_nonneg by (apply (unsigned_hash_word32 name u Hu)).
    reflexivity.
  - unfold GenerateHashes.run. rewrite Hsorted, Hw. reflexivity.
Qed.

Lemma C4_witness :
  exists names lines,
    StronglySorted (fun a b => Py.str_ltb a b = true) names /\
    (forall name,
       name ∈ names <->
       exists t, t ∈ Samples.device_a /\ GenerateHashes.Key t = Some name) /\
    Forall2
      (fun name line =>
         exists u t,
           GenerateHashes.unsigned_hash name = Some u /\
           TextFacts.last_with_key (Some name) Samples.device_a t /\
           Forall (fun c => c ∈ Py.lit "0123456789abcdef") (Py.hex_digits u) /\
           line = Py.dquote ++ name ++ Py.dquote ++ Py.lit " "
                    ++ Py.str_of_int (GenerateHashes.to_signed u) ++ Py.lit " "
                    ++ (Py.lit "0x" ++ Py.hex_digits u) ++ Py.lit " "
                    ++ Py.dquote ++ default [] (GenerateHashes.Value t)
                    ++ Py.dquote ++ Py.nl)
      names lines /\
    GenerateHashes.run (GenerateHashes.Parsed Samples.device_a) None
    = GenerateHashes.Result [GenerateHashes.SuccessMessage]
        (Some (concat lines)) GenerateHashes.Completed.
Proof.
  apply (C4_text_emitter_one_sorted_line_per_identifier Samples.device_a None).
  repeat constructor.
  - eexists. split; [reflexivity|apply text_lit].
  - intros v [= <-]. apply text_lit.
Defined.

(** C4, as stated, fails: for the record ["DeviceA"] with the value
    ["<N:EN:Pipe Analyzer>"] the line written holds the raw value, not
    the canonical display name ["Pipe Analyzer"]. *)
Lemma C4_counterexample :
  GenerateHashes.run (GenerateHashes.Parsed Samples.device_a) None
  = GenerateHashes.Result [GenerateHashes.SuccessMessage]
      (Some (Py.dquote ++ Py.lit "DeviceA" ++ Py.dquote
               ++ Py.lit " 376252038 0x166d2686 "
               ++ Py.dquote ++ Py.lit "<N:EN:Pipe Analyzer>" ++ Py.dquote
               ++ Py.nl))
      GenerateHashes.Completed /\
  GenerateHashes.out_file
    (GenerateHashes.run (GenerateHashes.Parsed Samples.device_a) None)
  <> Some (Py.dquote ++ Py.lit "DeviceA" ++ Py.dquote
             ++ Py.lit " 376252038 0x166d2686 "
             ++ Py.dquote ++ Py.lit "Pipe Analyzer" ++ Py.dquote ++ Py.nl).
Proof. split; [vm_compute; reflexivity|vm_compute; discriminate]. Qed.

(** ** Records without an identifier *)

(** A record without [<Key>] is stored under [None]; [sorted] then raises
    when the destination is already open, and leaves it empty. *)
Example missing_key_raises_after_truncation :
  GenerateHashes.run (GenerateHashes.Parsed Samples.missing_key)
                     (Some (Py.lit "previous run"))
  = GenerateHashes.Result [] (Some [])
      (GenerateHashes.Raised GenerateHashes.TypeError).
Proof. vm_compute. reflexivity. Qed.





(** * Further properties of the two scripts *)

(** ** Escaping of display names *)

Lemma replace_char_flat_map s c new :
  Py.replace s [c] new = flat_map (fun x => if x =? c then new else [x]) s.
Proof.
  unfold Py.replace. induction s as [|x t IH]; [reflexivity|].
  cbn [Py.replace_from flat_map Py.startswith length Nat.pred].
  rewrite (Z.eqb_sym x c).
  destruct (c =? x); cbn [andb]; rewrite IH; reflexivity.
Qed.

Lemma escape_flat_map d :
  UpdateDeviceHashes.escape d = flat_map RustLiteral.escape_char d.
Proof.
  unfold UpdateDeviceHashes.escape, Py.dquote.
  rewrite !replace_char_flat_map.
  induction d as [|c d IH]; [reflexivity|].
  cbn [flat_map]. rewrite flat_map_app, IH. f_equal.
  unfold RustLiteral.escape_char.
  destruct (Z.eqb_spec c 92) as [->|H92]; [reflexivity|].
  cbn [flat_map]. rewrite app_nil_r. reflexivity.
Qed.

Lemma unescape_escape d :
  RustLiteral.unescape (flat_map RustLiteral.escape_char d) = d.
Proof.
  induction d as [|c d IH]; [reflexivity|].
  cbn [flat_map]. unfold RustLiteral.escape_char at 1.
  destruct (Z.eqb_spec c 92) as [->|H92];
    [|destruct (Z.eqb_spec c 34) as [->|H34]].
  - cbn. by rewrite IH.
  - cbn. by rewrite IH.
  - cbn [app RustLiteral.unescape].
    destruct (Z.eqb_spec c 92); [contradiction|]. by rewrite IH.
Qed.

Lemma no_bare_quote_escape d :
  RustLiteral.bare_quote (flat_map RustLiteral.escape_char d) = false.
Proof.
  induction d as [|c d IH]; [reflexivity|].
  cbn [flat_map]. unfold RustLiteral.escape_char at 1.
  destruct (Z.eqb_spec c 92) as [->|H92];
    [|destruct (Z.eqb_spec c 34) as [->|H34]].
  - cbn. exact IH.
  - cbn. exact IH.
  - cbn [app RustLiteral.bare_quote].
    destruct (Z.eqb_spec c 92); [contradiction|].
    destruct (Z.eqb_spec c 34); [contradiction|]. exact IH.
Qed.

(** X1: the two [replace] calls of line 58 act as one pass that doubles
    every backslash and puts a backslash before every quote (the second
    call does not touch what the first produced); the escaped name holds
    no quote that would end the literal, reads back as the display name,
    and two display names with the same escaped form are equal. *)
Theorem escape_is_one_pass_and_reversible :
  forall d d' : Py.str,
    UpdateDeviceHashes.escape d = flat_map RustLiteral.escape_char d /\
    RustLiteral.bare_quote (UpdateDeviceHashes.escape d) = false /\
    RustLiteral.unescape (UpdateDeviceHashes.escape d) = d /\
    (UpdateDeviceHashes.escape d = UpdateDeviceHashes.escape d' -> d = d').
Proof.
  intros d d'. rewrite !escape_flat_map.
  split; [reflexivity|]. split; [apply no_bare_quote_escape|].
  split; [apply unescape_escape|].
  intros H. apply (f_equal RustLiteral.unescape) in H.
  by rewrite !unescape_escape in H.
Qed.

Lemma escape_is_one_pass_and_reversible_witness :
  RustLiteral.unescape
    (UpdateDeviceHashes.escape (Py.lit "a\b" ++ Py.dquote ++ Py.lit "c"))
  = Py.lit "a\b" ++ Py.dquote ++ Py.lit "c".
Proof.
  apply (proj1 (proj2 (proj2
           (escape_is_one_pass_and_reversible
              (Py.lit "a\b" ++ Py.dquote ++ Py.lit "c") [])))).
Defined.

(** ** Trimming *)

Lemma lstrip_head s c : head (Py.lstrip s) = Some c -> Py.isspace c = false.
Proof.
  induction s as [|x t IH]; simpl; [discriminate|].
  destruct (Py.isspace x) eqn:Hx; [exact IH|].
  simpl. intros [= <-]. exact Hx.
Qed.

Lemma lstrip_empty s :
  Py.lstrip s = [] <-> Forall (fun c => Py.isspace c = true) s.
Proof.
  split; [|apply lstrip_spaces].
  intros H. destruct (lstrip_suffix s) as (pre & Hs & Hpre).
  rewrite H, app_nil_r in Hs. by subst.
Qed.

Lemma reverse_eq_rev {A} (l : list A) : reverse l = rev l.
Proof. unfold reverse. symmetry. apply rev_alt. Qed.

Lemma rstrip_empty s :
  Py.rstrip s = [] <-> Forall (fun c => Py.isspace c = true) s.
Proof.
  unfold Py.rstrip. rewrite <- (rev_involutive s) at 2.
  rewrite <- !reverse_eq_rev, Forall_reverse, <- lstrip_empty.
  split; [|by intros ->].
  intros H. apply (f_equal reverse) in H. by rewrite reverse_involutive in H.
Qed.

Lemma rstrip_last s c : last (Py.rstrip s) = Some c -> Py.isspace c = false.
Proof.
  unfold Py.rstrip. rewrite <- !reverse_eq_rev, last_reverse.
  apply lstrip_head.
Qed.

Lemma strip_empty s :
  Py.strip s = [] <-> Forall (fun c => Py.isspace c = true) s.
Proof.
  unfold Py.strip. rewrite rstrip_empty. split.
  - intros H. apply lstrip_empty.
    destruct (Py.lstrip s) as [|c t] eqn:E; [reflexivity|].
    apply Forall_cons in H as [Hc _].
    assert (Hh : head (Py.lstrip s) = Some c) by (by rewrite E).
    apply lstrip_head in Hh. congruence.
  - intros H. by rewrite (lstrip_spaces s H).
Qed.

Lemma strip_ends s c :
  head (Py.strip s) = Some c \/ last (Py.strip s) = Some c ->
  Py.isspace c = false.
Proof.
  intros [H|H]; [|by apply rstrip_last in H].
  unfold Py.strip in H.
  destruct (rstrip_prefix (Py.lstrip s)) as [post Hp].
  apply (lstrip_head s). rewrite Hp.
  destruct (Py.rstrip (Py.lstrip s)); [discriminate|exact H].
Qed.

Lemma lstrip_fixed s :
  (forall c, head s = Some c -> Py.isspace c = false) -> Py.lstrip s = s.
Proof.
  destruct s as [|x t]; [reflexivity|]. intros H. simpl.
  by rewrite (H x eq_refl).
Qed.

Lemma strip_idempotent s : Py.strip (Py.strip s) = Py.strip s.
Proof.
  unfold Py.strip at 1.
  rewrite lstrip_fixed by (intros c Hc; apply (strip_ends s); by left).
  unfold Py.rstrip. rewrite lstrip_fixed; [apply rev_involutive|].
  intros c Hc. apply (strip_ends s). right.
  by rewrite <- !reverse_eq_rev, head_reverse in Hc.
Qed.

(** X2: a display name that comes from the title (the identifier was not
    substituted) neither starts nor ends with a whitespace character, and
    cleaning it again cannot trim it further. *)
Theorem display_name_from_title_is_trimmed :
  forall title c,
    (head (UpdateDeviceHashes.clean_title title) = Some c \/
     last (UpdateDeviceHashes.clean_title title) = Some c ->
     Py.isspace c = false) /\
    Py.strip (UpdateDeviceHashes.clean_title title)
    = UpdateDeviceHashes.clean_title title.
Proof.
  intros title c. unfold UpdateDeviceHashes.clean_title.
  split; [apply strip_ends|apply strip_idempotent].
Qed.

Lemma display_name_from_title_is_trimmed_witness :
  Py.isspace 65 = false.
Proof.
  apply (proj1 (display_name_from_title_is_trimmed
                  (Py.lit "  <N:EN:A b>  ") 65)).
  left. reflexivity.
Defined.

(** X3: the identifier is substituted for the display name exactly when
    the title, once the markers [<N:EN:] are taken out, holds nothing but
    whitespace and [>] characters. *)
Theorem identifier_substituted_iff_title_blank :
  forall title prefab_name : Py.str,
    (UpdateDeviceHashes.clean_title title = [] <->
     Forall (fun c => Py.isspace c = true \/ c = 62)
            (Py.replace title (Py.lit "<N:EN:") [])) /\
    (UpdateDeviceHashes.clean_title title = [] ->
     UpdateDeviceHashes.display_name title prefab_name = prefab_name) /\
    (UpdateDeviceHashes.clean_title title <> [] ->
     UpdateDeviceHashes.display_name title prefab_name
     = UpdateDeviceHashes.clean_title title).
Proof.
  intros title n. split.
  - unfold UpdateDeviceHashes.clean_title. rewrite strip_empty.
    change (Py.lit ">") with [62]. rewrite replace_char_flat_map.
    generalize (Py.replace title (Py.lit "<N:EN:") []). intros s.
    induction s as [|x t IH]; [split; constructor|].
    cbn [flat_map]. rewrite Forall_app, IH, (Forall_cons _ x t).
    destruct (Z.eqb_spec x 62) as [->|Hx].
    + split; [intros [_ H]; auto|intros [_ H]; split; [constructor|exact H]].
    + rewrite Forall_singleton. split.
      * intros [H1 H2]. auto.
      * intros [[H1|H1] H2]; [auto|contradiction].
  - rewrite display_name_cases.
    destruct (UpdateDeviceHashes.clean_title title); split; congruence.
Qed.

Lemma identifier_substituted_iff_title_blank_witness :
  UpdateDeviceHashes.display_name (Py.lit " <N:EN:> > ") (Py.lit "DeviceB")
  = Py.lit "DeviceB".
Proof.
  apply (proj1 (proj2 (identifier_substituted_iff_title_blank
                         (Py.lit " <N:EN:> > ") (Py.lit "DeviceB")))).
  reflexivity.
Defined.

(** ** Identifiers in ASCII *)

Lemma encode_utf8_ascii (s : Py.str) :
  Forall (fun c => 0 <= c < 128) s -> Py.encode_utf8 s = Some s.
Proof.
  intros Hs. unfold Py.encode_utf8.
  assert (Hm : mapM Py.utf8_encode_char s = Some ((fun c => [c]) <$> s)).
  { apply mapM_Some. induction Hs as [|c t Hc _ IH]; constructor; [|exact IH].
    unfold Py.utf8_encode_char.
    destruct (Z.ltb_spec c 0); [lia|].
    destruct (Z.ltb_spec c 128); [reflexivity|lia]. }
  rewrite Hm. simpl. f_equal.
  clear. induction s as [|c t IH]; [reflexivity|]. cbn. by rewrite IH.
Qed.

(** X4: for an identifier of ASCII characters the bytes that are hashed
    are the character codes themselves: the unsigned hash is the CRC-32 of
    the identifier read as a byte string, and is always defined. *)
Theorem ascii_identifier_hashes_its_codes :
  forall s : Py.str,
    Forall (fun c => 0 <= c < 128) s ->
    Py.encode_utf8 s = Some s /\
    GenerateHashes.unsigned_hash s = Some (Crc32Ieee.checksum s) /\
    GenerateHashes.signed_hash s
    = Some (GenerateHashes.to_signed (Crc32Ieee.checksum s)).
Proof.
  intros s Hs. pose proof (encode_utf8_ascii s Hs) as He.
  assert (Hc : Zlib.crc32 s = Crc32Ieee.checksum s).
  { apply zlib_crc32_is_ieee. eapply Forall_impl; [exact Hs|].
    intros c Hc. unfold Py.octet. simpl in Hc. lia. }
  unfold GenerateHashes.signed_hash, GenerateHashes.unsigned_hash.
  rewrite He. simpl. rewrite Hc. auto.
Qed.

Lemma ascii_identifier_hashes_its_codes_witness :
  GenerateHashes.unsigned_hash (Py.lit "StructureWallIron")
  = Some (Crc32Ieee.checksum (Py.lit "StructureWallIron")).
Proof.
  apply (ascii_identifier_hashes_its_codes (Py.lit "StructureWallIron")).
  vm_compute. repeat constructor; discriminate.
Defined.

(** ** Pages that the loop passes over *)

Lemma fold_add_page_filter pages t :
  fold_left UpdateDeviceHashes.add_page pages t
  = fold_left UpdateDeviceHashes.add_page
      (List.filter UpdateDeviceHashes.retained pages) t.
Proof.
  revert t. induction pages as [|p pages IH]; intros t; [reflexivity|].
  cbn [fold_left List.filter].
  destruct (UpdateDeviceHashes.retained p) eqn:Hr.
  - cbn [fold_left]. apply IH.
  - rewrite add_page_skipped by exact Hr. apply IH.
Qed.

(** X5: a page without identifier, with an empty identifier or without
    hash has no effect at all: the tables, the generated file and the
    console are those of the source without such pages, wherever they
    stand among the others. *)
Theorem skipped_pages_leave_no_trace :
  forall pages old,
    UpdateDeviceHashes.load pages
    = UpdateDeviceHashes.load (List.filter UpdateDeviceHashes.retained pages) /\
    UpdateDeviceHashes.run (UpdateDeviceHashes.Parsed pages) old
    = UpdateDeviceHashes.run
        (UpdateDeviceHashes.Parsed
           (List.filter UpdateDeviceHashes.retained pages)) old.
Proof.
  intros pages old.
  assert (H : UpdateDeviceHashes.load pages
              = UpdateDeviceHashes.load
                  (List.filter UpdateDeviceHashes.retained pages))
    by apply fold_add_page_filter.
  split; [exact H|]. unfold UpdateDeviceHashes.run. by rewrite <- H.
Qed.

(** ** The entries of the file and the counts of the console *)

Lemma omap_length_filter {A B} (f : A -> option B) (g : A -> bool) l :
  (forall x, is_Some (f x) <-> g x = true) ->
  length (omap f l) = length (List.filter g l).
Proof.
  intros H. induction l as [|x l IH]; [reflexivity|].
  cbn. destruct (f x) as [y|] eqn:Hf, (g x) eqn:Hg; cbn.
  - by rewrite IH.
  - assert (is_Some (f x)) as Hs by (by rewrite Hf).
    apply H in Hs. congruence.
  - apply H in Hg. rewrite Hf in Hg. by destruct Hg.
  - exact IH.
Qed.

Lemma name_to_hash_length t :
  length (UpdateDeviceHashes.name_to_hash t)
  = size (UpdateDeviceHashes.device_map t).
Proof.
  rewrite <- (length_fmap fst), name_to_hash_names.
  rewrite sorted_str_Permutation, length_fmap. apply length_map_to_list.
Qed.

Lemma hash_to_display_name_length t :
  length (UpdateDeviceHashes.hash_to_display_name t)
  = size (UpdateDeviceHashes.hash_to_name t).
Proof.
  rewrite <- (length_fmap fst), hash_to_display_name_hashes.
  rewrite sorted_int_Permutation, length_fmap. apply length_map_to_list.
Qed.

(** X6: the numbers that the console reports are the numbers of entries
    written: ["Found n devices"] and ["n device names mapped"] count the
    entries of [DEVICE_NAME_TO_HASH], ["n hash values mapped"] those of
    [HASH_TO_DISPLAY_NAME]; and there are never more hash entries than
    retained pages. *)
Theorem console_counts_are_entry_counts :
  forall pages,
    UpdateDeviceHashes.found_message (UpdateDeviceHashes.load pages)
    = Py.lit "Found "
        ++ Py.str_of_int
             (Z.of_nat (length (UpdateDeviceHashes.name_to_hash
                                  (UpdateDeviceHashes.load pages))))
        ++ Py.lit " devices" /\
    UpdateDeviceHashes.summary (UpdateDeviceHashes.load pages)
    = [[0x2705] ++ Py.lit " Done! Device hashes updated.";
       Py.lit "   - "
         ++ Py.str_of_int
              (Z.of_nat (length (UpdateDeviceHashes.name_to_hash
                                   (UpdateDeviceHashes.load pages))))
         ++ Py.lit " device names mapped";
       Py.lit "   - "
         ++ Py.str_of_int
              (Z.of_nat (length (UpdateDeviceHashes.hash_to_display_name
                                   (UpdateDeviceHashes.load pages))))
         ++ Py.lit " hash values mapped"] /\
    (length (UpdateDeviceHashes.name_to_hash (UpdateDeviceHashes.load pages))
     <= length (List.filter UpdateDeviceHashes.retained pages))%nat /\
    (length (UpdateDeviceHashes.hash_to_display_name
               (UpdateDeviceHashes.load pages))
     <= length (List.filter UpdateDeviceHashes.retained pages))%nat.
Proof.
  intros pages.
  rewrite name_to_hash_length, hash_to_display_name_length.
  split; [reflexivity|]. split; [reflexivity|].
  assert (Hn : length (TableFacts.retained_names pages)
               = length (List.filter UpdateDeviceHashes.retained pages)).
  { apply omap_length_filter. intros p. unfold UpdateDeviceHashes.retained.
    destruct (UpdateDeviceHashes.PrefabName p) as [n|],
             (UpdateDeviceHashes.PrefabHash p) as [h|]; simpl;
      try (split; [intros [? [=]]|discriminate]).
    destruct (Py.truthy n).
    - split; [reflexivity|by eexists].
    - split; [intros [? [=]]|discriminate]. }
  rewrite <- Hn.
  rewrite <- (size_dom (D := gset Py.str)), <- (size_dom (D := gset Z)).
  rewrite dom_device_map, dom_hash_to_name. split.
  - apply size_list_to_set_bound.
  - rewrite retained_lengths. apply size_list_to_set_bound.
Qed.

(** ** Numbers as they are printed *)

Lemma lit_inj s1 s2 : Py.lit s1 = Py.lit s2 -> s1 = s2.
Proof.
  unfold Py.lit. intros H.
  apply (f_equal (map (fun z => ascii_of_N (Z.to_N z)))) in H.
  rewrite !map_map in H.
  assert (Hid : forall l : list ascii,
            map (fun a => ascii_of_N (Z.to_N (Z.of_N (N_of_ascii a)))) l = l).
  { intros l. induction l as [|a l IH]; [reflexivity|].
    simpl. rewrite N2Z.id, ascii_N_embedding, IH. reflexivity. }
  rewrite !Hid in H.
  apply (f_equal string_of_list_ascii) in H.
  by rewrite !string_of_list_ascii_of_string in H.
Qed.

Lemma to_int_proper n :
  Z.to_int n <> Decimal.Pos Decimal.Nil /\ Z.to_int n <> Decimal.Neg Decimal.Nil.
Proof.
  destruct n as [|p|p]; simpl; split; try discriminate;
    intros [= H]; by apply DecimalPos.Unsigned.to_uint_nonnil in H.
Qed.

Lemma str_of_int_inj a b : Py.str_of_int a = Py.str_of_int b -> a = b.
Proof.
  unfold Py.str_of_int. intros H. apply lit_inj in H.
  apply (f_equal DecimalString.NilZero.int_of_string) in H.
  destruct (to_int_proper a) as [Ha1 Ha2], (to_int_proper b) as [Hb1 Hb2].
  rewrite !DecimalString.NilZero.isi in H by assumption.
  injection H as H. apply (f_equal Z.of_int) in H.
  by rewrite !DecimalZ.of_to in H.
Qed.

Lemma hex_digits_inj a b :
  0 <= a -> 0 <= b -> Py.hex_digits a = Py.hex_digits b -> a = b.
Proof.
  unfold Py.hex_digits. intros Ha Hb H. apply lit_inj in H.
  assert (Hnn : forall n, N.to_hex_uint n <> Hexadecimal.Nil).
  { intros [|p]; simpl; [discriminate|].
    apply HexadecimalPos.Unsigned.to_uint_nonnil. }
  apply (f_equal HexadecimalString.NilZero.uint_of_string) in H.
  rewrite !HexadecimalString.NilZero.usu in H by apply Hnn.
  injection H as H. apply (f_equal N.of_hex_uint) in H.
  rewrite !HexadecimalN.Unsigned.of_to in H. lia.
Qed.

Lemma to_signed_inj u v :
  0 <= u < 2 ^ 32 -> 0 <= v < 2 ^ 32 ->
  GenerateHashes.to_signed u = GenerateHashes.to_signed v -> u = v.
Proof.
  intros Hu Hv.
  destruct (Z_lt_dec u (2 ^ 31)), (Z_lt_dec v (2 ^ 31));
    rewrite ?(to_signed_low u), ?(to_signed_low v),
            ?(to_signed_high u), ?(to_signed_high v) by lia; lia.
Qed.

(** X7: either number field of a line of the text reference identifies
    the hash: two unsigned hashes whose signed decimal fields are the same
    text, or whose hexadecimal fields are the same text, are equal. *)
Theorem number_fields_identify_the_hash :
  forall u v,
    0 <= u < 2 ^ 32 -> 0 <= v < 2 ^ 32 ->
    (Py.str_of_int (GenerateHashes.to_signed u)
     = Py.str_of_int (GenerateHashes.to_signed v) -> u = v) /\
    (Py.hex u = Py.hex v -> u = v).
Proof.
  intros u v Hu Hv. split.
  - intros H. apply str_of_int_inj in H. by apply to_signed_inj.
  - rewrite !hex_nonneg by lia. intros H.
    apply app_inv_head in H. apply hex_digits_inj; [lia..|exact H].
Qed.

Lemma number_fields_identify_the_hash_witness :
  0x166d2686 = 376252038.
Proof.
  apply (number_fields_identify_the_hash 0x166d2686 376252038);
    [lia|lia|reflexivity].
Defined.

(** X8: no key is written twice in either map of the generated file: the
    identifiers of [DEVICE_NAME_TO_HASH] are pairwise distinct, and so are
    the decimal texts of the keys of [HASH_TO_DISPLAY_NAME], since two
    integers with the same decimal text are equal; both maps are written
    in strictly ascending order of their keys. *)
Theorem generated_maps_have_distinct_sorted_keys :
  forall t,
    NoDup (UpdateDeviceHashes.name_to_hash t).*1 /\
    NoDup (Py.str_of_int <$> (UpdateDeviceHashes.hash_to_display_name t).*1) /\
    StronglySorted (fun a b => Py.str_ltb a b = true)
                   (UpdateDeviceHashes.name_to_hash t).*1 /\
    StronglySorted Z.lt (UpdateDeviceHashes.hash_to_display_name t).*1.
Proof.
  intros t. split; [apply name_to_hash_NoDup|]. split.
  - apply NoDup_fmap_2_strong; [|apply hash_to_display_name_NoDup].
    intros a b _ _. apply str_of_int_inj.
  - split; [apply name_to_hash_ascending|apply hash_to_display_name_ascending].
Qed.

(** ** Looking a hash up *)

Lemma unshared_hash_resolves pages (name : Py.str) h d :
  UpdateDeviceHashes.device_map (UpdateDeviceHashes.load pages) !! name
  = Some (h, d) ->
  (forall q, q ∈ pages -> UpdateDeviceHashes.retained q = true ->
             UpdateDeviceHashes.PrefabHash q = Some h ->
             UpdateDeviceHashes.PrefabName q = Some name) ->
  UpdateDeviceHashes.hash_to_name (UpdateDeviceHashes.load pages) !! h = Some d.
Proof.
  induction pages as [|x pages IH] using rev_ind.
  - simpl. rewrite lookup_empty. discriminate.
  - rewrite load_snoc. intros Hd Hall.
    assert (Hall' : forall q, q ∈ pages ->
              UpdateDeviceHashes.retained q = true ->
              UpdateDeviceHashes.PrefabHash q = Some h ->
              UpdateDeviceHashes.PrefabName q = Some name).
    { intros q Hq. apply Hall, elem_of_app. by left. }
    destruct (UpdateDeviceHashes.retained x) eqn:Hr.
    + destruct (add_page_retained (UpdateDeviceHashes.load pages) x Hr)
        as (n & hx & Hn & Hh & _ & Heq).
      rewrite Heq in Hd |- *. simpl in Hd |- *.
      rewrite lookup_insert in Hd. rewrite lookup_insert.
      case_decide as Hname.
      * injection Hd as <- <-. by rewrite decide_True.
      * case_decide as Hhash; [|by apply IH].
        subst hx. exfalso. apply Hname.
        assert (UpdateDeviceHashes.PrefabName x = Some name) as Hx.
        { apply Hall; [apply elem_of_app; right; by left|exact Hr|exact Hh]. }
        congruence.
    + rewrite add_page_skipped in Hd |- * by exact Hr. by apply IH.
Qed.

(** X9: the hash that [DEVICE_NAME_TO_HASH] gives for an identifier is
    always a key of [HASH_TO_DISPLAY_NAME]; and when no retained page of
    another identifier carries that hash, the entry found there is the
    display name of that identifier. *)
Theorem hash_of_a_name_resolves :
  forall pages (name : Py.str) h,
    (name, h) ∈ UpdateDeviceHashes.name_to_hash (UpdateDeviceHashes.load pages) ->
    h ∈ (UpdateDeviceHashes.hash_to_display_name
           (UpdateDeviceHashes.load pages)).*1 /\
    ((forall q, q ∈ pages -> UpdateDeviceHashes.retained q = true ->
                UpdateDeviceHashes.PrefabHash q = Some h ->
                UpdateDeviceHashes.PrefabName q = Some name) ->
     exists d,
       UpdateDeviceHashes.device_map (UpdateDeviceHashes.load pages) !! name
       = Some (h, d) /\
       (h, d) ∈ UpdateDeviceHashes.hash_to_display_name
                  (UpdateDeviceHashes.load pages)).
Proof.
  intros pages name h He. apply name_to_hash_elem in He as [d Hd]. split.
  - apply hash_to_display_name_hashes_retained.
    pose proof Hd as Hd'.
    apply device_map_last in Hd' as (p & Hp & Hh & _).
    apply last_retained_elem in Hp as (Hin & Hr & _). eauto.
  - intros Hall. exists d. split; [exact Hd|].
    apply hash_to_display_name_elem. by apply unshared_hash_resolves with name.
Qed.

Lemma hash_of_a_name_resolves_witness :
  7 ∈ (UpdateDeviceHashes.hash_to_display_name
         (UpdateDeviceHashes.load Samples.beta_then_alpha)).*1.
Proof.
  apply (hash_of_a_name_resolves Samples.beta_then_alpha
           (Py.lit "StructureB") 7).
  vm_compute. apply list_elem_of_In. simpl. auto.
Defined.

(** ** A record without key *)

Lemma keyless_sorted_keys things :
  (exists t, t ∈ things /\ GenerateHashes.Key t = None) ->
  GenerateHashes.sorted_keys (GenerateHashes.load things)
  = inr (match (map_to_list (GenerateHashes.load things)).*1 with
         | [_] => GenerateHashes.AttributeError
         | _ => GenerateHashes.TypeError
         end).
Proof.
  intros Hex. apply load_keys in Hex as [v Hv].
  unfold GenerateHashes.sorted_keys.
  assert (Hn : mapM id (map_to_list (GenerateHashes.load things)).*1 = None).
  { apply mapM_None, Exists_exists. exists None. split; [|reflexivity].
    apply list_elem_of_fmap. exists (None, v). split; [reflexivity|].
    by apply elem_of_map_to_list. }
  by rewrite Hn.
Qed.

Lemma keys_of_load things k :
  k ∈ (map_to_list (GenerateHashes.load things)).*1 <->
  exists t, t ∈ things /\ GenerateHashes.Key t = k.
Proof.
  rewrite <- load_keys, list_elem_of_fmap. split.
  - intros ([k' v] & -> & H). apply elem_of_map_to_list in H. by exists v.
  - intros [v Hv]. exists (k, v). split; [reflexivity|].
    by apply elem_of_map_to_list.
Qed.

(** X10: a record without [<Key>] makes the run of [generate_hashes.py]
    end by an exception after the destination has been opened: whatever
    the file held, it is left empty and the success message is not
    printed.  The exception is [AttributeError] when no record has a key,
    [TypeError] when some other record has one. *)
Theorem keyless_record_empties_the_destination :
  forall things old,
    (exists t, t ∈ things /\ GenerateHashes.Key t = None) ->
    (Forall (fun t => GenerateHashes.Key t = None) things ->
     GenerateHashes.run (GenerateHashes.Parsed things) old
     = GenerateHashes.Result [] (Some [])
         (GenerateHashes.Raised GenerateHashes.AttributeError)) /\
    ((exists t, t ∈ things /\ is_Some (GenerateHashes.Key t)) ->
     GenerateHashes.run (GenerateHashes.Parsed things) old
     = GenerateHashes.Result [] (Some [])
         (GenerateHashes.Raised GenerateHashes.TypeError)).
Proof.
  intros things old Hex. unfold GenerateHashes.run.
  rewrite (keyless_sorted_keys things Hex).
  pose proof (keys_of_load things) as Hkeys.
  pose proof (NoDup_fst_map_to_list (GenerateHashes.load things)) as Hnd.
  destruct ((map_to_list (GenerateHashes.load things)).*1)
    as [|a [|b l]] eqn:E.
  - destruct Hex as (t & Hin & Hk).
    assert (None ∈ @nil (option Py.str)) as H by (apply Hkeys; eauto).
    inversion H.
  - split; [reflexivity|]. intros (t & Hin & [k Hk]).
    destruct Hex as (t' & Hin' & Hk').
    assert (Some k ∈ [a]) as H1 by (apply Hkeys; eauto).
    assert (None ∈ [a]) as H2 by (apply Hkeys; eauto).
    apply list_elem_of_singleton in H1, H2. congruence.
  - split; [|reflexivity]. intros Hall. exfalso.
    rewrite Forall_forall in Hall.
    assert (Ha : a = None).
    { destruct (proj1 (Hkeys a) ltac:(left)) as (t & Hin & <-). by apply Hall. }
    assert (Hb : b = None).
    { destruct (proj1 (Hkeys b) ltac:(right; left)) as (t & Hin & <-).
      by apply Hall. }
    subst. apply NoDup_cons in Hnd as [Hnd _]. apply Hnd. by left.
Qed.

Lemma keyless_record_empties_the_destination_witness :
  GenerateHashes.run (GenerateHashes.Parsed Samples.missing_key)
                     (Some (Py.lit "previous run"))
  = GenerateHashes.Result [] (Some [])
      (GenerateHashes.Raised GenerateHashes.TypeError).
Proof.
  refine (proj2 (keyless_record_empties_the_destination
                   Samples.missing_key (Some (Py.lit "previous run")) _) _).
  - eexists. split; [left|reflexivity].
  - eexists. split; [right; left|]. by eexists.
Defined.

(** ** The order of the records *)

Lemma load_lookup_distinct_keys things k v :
  NoDup (GenerateHashes.Key <$> things) ->
  GenerateHashes.load things !! k = Some v <->
  exists t, t ∈ things /\ GenerateHashes.Key t = k /\
            v = default [] (GenerateHashes.Value t).
Proof.
  intros Hnd. rewrite load_last. split.
  - intros (t & Ht & ->). apply last_with_key_elem in Ht as [Hin Hk]. eauto.
  - intros (t & Hin & Hk & ->). exists t. split; [|reflexivity].
    apply list_elem_of_split in Hin as (before & after & ->).
    exists before, after. split; [reflexivity|]. split; [exact Hk|].
    rewrite fmap_app, fmap_cons in Hnd.
    apply NoDup_app in Hnd as (_ & _ & Hnd).
    apply NoDup_cons in Hnd as [Hnotin _].
    apply Forall_forall. intros q Hq Heq. apply Hnotin.
    apply list_elem_of_fmap. exists q. split; [congruence|exact Hq].
Qed.

(** X11: when no key occurs twice in the source, the order of its records
    is irrelevant to [generate_hashes.py]: two sources with the same
    records in different orders give the same dictionary, the same file,
    the same console and the same end. *)
Theorem text_reference_ignores_record_order :
  forall things1 things2 old,
    things1 ≡ₚ things2 ->
    NoDup (GenerateHashes.Key <$> things1) ->
    GenerateHashes.load things1 = GenerateHashes.load things2 /\
    GenerateHashes.run (GenerateHashes.Parsed things1) old
    = GenerateHashes.run (GenerateHashes.Parsed things2) old.
Proof.
  intros things1 things2 old Hp Hnd.
  assert (Hnd2 : NoDup (GenerateHashes.Key <$> things2)) by (by rewrite <- Hp).
  assert (H : GenerateHashes.load things1 = GenerateHashes.load things2).
  { apply map_eq. intros k. apply option_eq. intros v.
    rewrite !load_lookup_distinct_keys by assumption.
    by setoid_rewrite Hp. }
  split; [exact H|]. unfold GenerateHashes.run. by rewrite H.
Qed.

Lemma text_reference_ignores_record_order_witness :
  GenerateHashes.run
    (GenerateHashes.Parsed (Samples.device_a ++ Samples.empty_key)) None
  = GenerateHashes.run
      (GenerateHashes.Parsed (Samples.empty_key ++ Samples.device_a)) None.
Proof.
  apply (text_reference_ignores_record_order
           (Samples.device_a ++ Samples.empty_key)
           (Samples.empty_key ++ Samples.device_a) None).
  - apply Permutation_app_comm.
  - vm_compute. repeat constructor; rewrite list_elem_of_In; simpl;
      intuition discriminate.
Defined.

(** ** The order of the pages *)

Lemma omap_NoDup_after {A B} (f : A -> option B) l1 x l2 y :
  NoDup (omap f (l1 ++ x :: l2)) -> f x = Some y ->
  (forall q, q ∈ l1 -> f q <> Some y) /\ (forall q, q ∈ l2 -> f q <> Some y).
Proof.
  intros Hnd Hx. rewrite omap_app in Hnd. cbn in Hnd. rewrite Hx in Hnd.
  cbn in Hnd. apply NoDup_app in Hnd as (_ & Hdis & Hnd).
  apply NoDup_cons in Hnd as [Hnotin _]. split.
  - intros q Hq Hfq. apply (Hdis y); [|by left].
    apply list_elem_of_omap. eauto.
  - intros q Hq Hfq. apply Hnotin, list_elem_of_omap. eauto.
Qed.

Section DistinctPages.
Import UpdateDeviceHashes TableFacts.

Lemma retained_name_selects p name :
  (if retained p then PrefabName p else None) = Some name <->
  retained p = true /\ has_name name p.
Proof.
  unfold has_name. destruct (retained p); split;
    [auto|intros [_ ?]; auto|discriminate|intros [? _]; discriminate].
Qed.

Lemma retained_hash_selects p h :
  (if retained p then PrefabHash p else None) = Some h <->
  retained p = true /\ has_hash h p.
Proof.
  unfold has_hash. destruct (retained p); split;
    [auto|intros [_ ?]; auto|discriminate|intros [? _]; discriminate].
Qed.

Lemma only_page_is_last_named pages p name :
  NoDup (retained_names pages) ->
  p ∈ pages -> retained p = true -> has_name name p ->
  last_retained (has_name name) pages p.
Proof.
  intros Hnd Hin Hr Hn.
  apply list_elem_of_split in Hin as (before & after & ->).
  exists before, after. split; [reflexivity|]. split; [exact Hr|].
  split; [exact Hn|].
  destruct (omap_NoDup_after _ before p after name Hnd
              (proj2 (retained_name_selects p name) (conj Hr Hn)))
    as [_ Hafter].
  apply Forall_forall. intros q Hq Hrq Hnq.
  apply (Hafter q Hq). by apply retained_name_selects.
Qed.

Lemma only_page_is_last_hashed pages p h :
  NoDup (retained_hashes pages) ->
  p ∈ pages -> retained p = true -> has_hash h p ->
  last_retained (has_hash h) pages p.
Proof.
  intros Hnd Hin Hr Hh.
  apply list_elem_of_split in Hin as (before & after & ->).
  exists before, after. split; [reflexivity|]. split; [exact Hr|].
  split; [exact Hh|].
  destruct (omap_NoDup_after _ before p after h Hnd
              (proj2 (retained_hash_selects p h) (conj Hr Hh)))
    as [_ Hafter].
  apply Forall_forall. intros q Hq Hrq Hhq.
  apply (Hafter q Hq). by apply retained_hash_selects.
Qed.

Lemma device_map_distinct_names pages name h d :
  NoDup (retained_names pages) ->
  device_map (load pages) !! name = Some (h, d) <->
  exists p, p ∈ pages /\ retained p = true /\ has_name name p /\
            PrefabHash p = Some h /\ d = display_of p.
Proof.
  intros Hnd. rewrite device_map_last. split.
  - intros (p & Hp & Hh & ->). apply last_retained_elem in Hp. exists p. tauto.
  - intros (p & Hin & Hr & Hn & Hh & ->). exists p.
    split; [by apply only_page_is_last_named|auto].
Qed.

Lemma hash_to_name_distinct_hashes pages h d :
  NoDup (retained_hashes pages) ->
  hash_to_name (load pages) !! h = Some d <->
  exists p, p ∈ pages /\ retained p = true /\ has_hash h p /\
            d = display_of p.
Proof.
  intros Hnd. rewrite hash_to_name_last. split.
  - intros (p & Hp & ->). apply last_retained_elem in Hp. exists p. tauto.
  - intros (p & Hin & Hr & Hh & ->). exists p.
    split; [by apply only_page_is_last_hashed|auto].
Qed.

End DistinctPages.

(** X12: when the retained pages name no identifier twice and carry no
    hash twice, the order of the pages is irrelevant to
    [update_device_hashes.py]: two sources with the same pages in different
    orders give the same tables, the same Rust file and the same console. *)
Theorem rust_tables_ignore_page_order :
  forall pages1 pages2 old,
    pages1 ≡ₚ pages2 ->
    NoDup (TableFacts.retained_names pages1) ->
    NoDup (TableFacts.retained_hashes pages1) ->
    UpdateDeviceHashes.load pages1 = UpdateDeviceHashes.load pages2 /\
    UpdateDeviceHashes.run (UpdateDeviceHashes.Parsed pages1) old
    = UpdateDeviceHashes.run (UpdateDeviceHashes.Parsed pages2) old.
Proof.
  intros pages1 pages2 old Hp Hn1 Hh1.
  assert (Hn2 : NoDup (TableFacts.retained_names pages2)).
  { unfold TableFacts.retained_names in *. by rewrite <- Hp. }
  assert (Hh2 : NoDup (TableFacts.retained_hashes pages2)).
  { unfold TableFacts.retained_hashes in *. by rewrite <- Hp. }
  assert (Hd : UpdateDeviceHashes.device_map (UpdateDeviceHashes.load pages1)
               = UpdateDeviceHashes.device_map (UpdateDeviceHashes.load pages2)).
  { apply map_eq. intros name. apply option_eq. intros [h d].
    rewrite !device_map_distinct_names by assumption.
    by setoid_rewrite Hp. }
  assert (Hh : UpdateDeviceHashes.hash_to_name (UpdateDeviceHashes.load pages1)
               = UpdateDeviceHashes.hash_to_name (UpdateDeviceHashes.load pages2)).
  { apply map_eq. intros h. apply option_eq. intros d.
    rewrite !hash_to_name_distinct_hashes by assumption.
    by setoid_rewrite Hp. }
  assert (H : UpdateDeviceHashes.load pages1 = UpdateDeviceHashes.load pages2).
  { destruct (UpdateDeviceHashes.load pages1),
             (UpdateDeviceHashes.load pages2). simpl in *. congruence. }
  split; [exact H|]. unfold UpdateDeviceHashes.run. by rewrite H.
Qed.

Lemma rust_tables_ignore_page_order_witness :
  UpdateDeviceHashes.run
    (UpdateDeviceHashes.Parsed Samples.no_collision) None
  = UpdateDeviceHashes.run
      (UpdateDeviceHashes.Parsed (reverse Samples.no_collision)) None.
Proof.
  apply (rust_tables_ignore_page_order
           Samples.no_collision (reverse Samples.no_collision) None).
  - symmetry. apply reverse_Permutation.
  - vm_compute. repeat constructor; rewrite list_elem_of_In; simpl;
      intuition discriminate.
  - vm_compute. repeat constructor; rewrite list_elem_of_In; simpl;
      intuition discriminate.
Defined.

(** ** When the two counts agree *)

Lemma omap_dup_split {A B} `{EqDecision B} (f : A -> option B) l :
  ~ NoDup (omap f l) ->
  exists l1 p l2 q l3 y,
    l = l1 ++ p :: l2 ++ q :: l3 /\ f p = Some y /\ f q = Some y.
Proof.
  induction l as [|x l IH]; intros Hnd.
  - destruct Hnd. constructor.
  - cbn in Hnd. destruct (f x) as [y|] eqn:Hx.
    + destruct (decide (y ∈ omap f l)) as [Hin|Hnotin].
      * apply list_elem_of_omap in Hin as (q & Hq & Hfq).
        apply list_elem_of_split in Hq as (l2 & l3 & ->).
        exists [], x, l2, q, l3, y. auto.
      * destruct IH as (l1 & p & l2 & q & l3 & z & -> & Hp & Hq).
        { intros H. apply Hnd. by constructor. }
        exists (x :: l1), p, l2, q, l3, z. auto.
    + destruct (IH Hnd) as (l1 & p & l2 & q & l3 & z & -> & Hp & Hq).
      exists (x :: l1), p, l2, q, l3, z. auto.
Qed.

Section CountsAgree.
Import UpdateDeviceHashes TableFacts.

Lemma retained_has_name p :
  retained p = true -> exists name, has_name name p.
Proof.
  unfold retained, has_name. destruct (PrefabName p) as [n|]; [eauto|discriminate].
Qed.

Lemma distinct_names_distinct_hashes pages :
  NoDup (retained_names pages) ->
  (forall a b h,
     (a, h) ∈ name_to_hash (load pages) ->
     (b, h) ∈ name_to_hash (load pages) -> a = b) ->
  NoDup (retained_hashes pages).
Proof.
  intros Hnd Hfree.
  destruct (decide (NoDup (retained_hashes pages))) as [H|H]; [exact H|].
  exfalso. apply omap_dup_split in H
    as (l1 & p & l2 & q & l3 & h & Hpages & Hp & Hq).
  apply retained_hash_selects in Hp as [Hrp Hhp], Hq as [Hrq Hhq].
  destruct (retained_has_name p Hrp) as [a Ha].
  destruct (retained_has_name q Hrq) as [b Hb].
  assert (Hpin : p ∈ pages).
  { rewrite Hpages. apply elem_of_app. right. by left. }
  assert (Hqin : q ∈ pages).
  { rewrite Hpages. apply elem_of_app. right. right.
    apply elem_of_app. right. by left. }
  assert (Hab : a <> b).
  { intros <-. rewrite Hpages in Hnd.
    destruct (omap_NoDup_after _ l1 p (l2 ++ q :: l3) a Hnd
                (proj2 (retained_name_selects p a) (conj Hrp Ha)))
      as [_ Hafter].
    apply (Hafter q).
    - apply elem_of_app. right. by left.
    - by apply retained_name_selects. }
  apply Hab, (Hfree a b h); apply name_to_hash_elem.
  - exists (display_of p). apply device_map_distinct_names; [exact Hnd|].
    exists p. auto.
  - exists (display_of q). apply device_map_distinct_names; [exact Hnd|].
    exists q. auto.
Qed.

End CountsAgree.

(** X13: for a source that names no identifier twice, the two counts of
    the summary are equal exactly when no two identifiers of
    [DEVICE_NAME_TO_HASH] have the same hash. *)
Theorem counts_agree_iff_no_collision :
  forall pages,
    NoDup (TableFacts.retained_names pages) ->
    size (UpdateDeviceHashes.hash_to_name (UpdateDeviceHashes.load pages))
    = size (UpdateDeviceHashes.device_map (UpdateDeviceHashes.load pages))
    <->
    (forall (a b : Py.str) h,
       (a, h) ∈ UpdateDeviceHashes.name_to_hash (UpdateDeviceHashes.load pages) ->
       (b, h) ∈ UpdateDeviceHashes.name_to_hash (UpdateDeviceHashes.load pages) ->
       a = b).
Proof.
  intros pages Hnd. split.
  - intros Heq a b h Ha Hb. destruct (decide (a = b)) as [|Hab]; [assumption|].
    exfalso. apply name_to_hash_elem in Ha as [da Ha], Hb as [db Hb].
    pose proof (collision_lowers_hash_count pages a b h da db Hnd Hab Ha Hb).
    lia.
  - intros Hfree.
    pose proof (distinct_names_distinct_hashes pages Hnd Hfree) as Hh.
    rewrite <- (size_dom (D := gset Z)), <- (size_dom (D := gset Py.str)).
    rewrite dom_device_map, dom_hash_to_name.
    rewrite !size_list_to_set by assumption.
    symmetry. apply retained_lengths.
Qed.

Lemma counts_agree_iff_no_collision_witness :
  size (UpdateDeviceHashes.hash_to_name
          (UpdateDeviceHashes.load Samples.first_two_collide))
  = size (UpdateDeviceHashes.device_map
            (UpdateDeviceHashes.load Samples.first_two_collide))
  <->
  (forall (a b : Py.str) h,
     (a, h) ∈ UpdateDeviceHashes.name_to_hash
                (UpdateDeviceHashes.load Samples.first_two_collide) ->
     (b, h) ∈ UpdateDeviceHashes.name_to_hash
                (UpdateDeviceHashes.load Samples.first_two_collide) ->
     a = b).
Proof.
  apply (counts_agree_iff_no_collision Samples.first_two_collide).
  vm_compute. repeat constructor; rewrite list_elem_of_In; simpl;
    intuition discriminate.
Defined.

(** ** The prompt *)

Lemma write_entries_end d names written :
  (GenerateHashes.write_entries d names written).2 = GenerateHashes.Completed \/
  (GenerateHashes.write_entries d names written).2
  = GenerateHashes.Raised GenerateHashes.UnicodeEncodeError \/
  (GenerateHashes.write_entries d names written).2
  = GenerateHashes.Raised GenerateHashes.KeyError.
Proof.
  revert written. induction names as [|n names IH]; intros written; simpl.
  - by left.
  - destruct (Py.encode_utf8 n); [|right; by left].
    destruct (d !! Some n); [|right; by right].
    destruct (Py.encode_utf8 _); [apply IH|right; by left].
Qed.

Lemma run_stops_before_writing src old :
  GenerateHashes.ended (GenerateHashes.run src old) = GenerateHashes.Exited \/
  GenerateHashes.ended (GenerateHashes.run src old)
  = GenerateHashes.Raised GenerateHashes.ParseError ->
  GenerateHashes.out_file (GenerateHashes.run src old) = old.
Proof.
  destruct src as [| |things]; [reflexivity..|].
  unfold GenerateHashes.run, GenerateHashes.sorted_keys.
  destruct (mapM id _) as [names|].
  - pose proof (write_entries_end (GenerateHashes.load things)
                  (Py.sorted_str names) []) as He.
    destruct (GenerateHashes.write_entries _ _ _) as [text o].
    simpl in He. destruct He as [->|[->| ->]]; simpl;
      intros [?|?]; discriminate.
  - destruct ((map_to_list (GenerateHashes.load things)).*1) as [|? [|? ?]];
      simpl; intros [?|?]; discriminate.
Qed.

(** X14: whatever [str.lower] is, whatever is typed and whatever the file
    system holds, a session of [generate_hashes.py] that ends at the
    prompt (no more input, game file not found, copy refused) or at the
    parse ([exit()] on a missing input file, [ParseError]) leaves the
    destination file as it was. *)
Theorem session_ending_early_keeps_the_destination :
  forall lower stdin paths input_writable input old,
    CopyPrompt.finished
      (CopyPrompt.main lower stdin paths input_writable input old)
    = CopyPrompt.EndOfInput \/
    CopyPrompt.finished
      (CopyPrompt.main lower stdin paths input_writable input old)
    = CopyPrompt.Ended GenerateHashes.Exited \/
    CopyPrompt.finished
      (CopyPrompt.main lower stdin paths input_writable input old)
    = CopyPrompt.Ended (GenerateHashes.Raised GenerateHashes.ParseError) ->
    CopyPrompt.destination
      (CopyPrompt.main lower stdin paths input_writable input old)
    = old.
Proof.
  intros lower stdin paths w input old.
  assert (Hsteps : forall said src,
            CopyPrompt.finished (CopyPrompt.steps said src old)
            = CopyPrompt.EndOfInput \/
            CopyPrompt.finished (CopyPrompt.steps said src old)
            = CopyPrompt.Ended GenerateHashes.Exited \/
            CopyPrompt.finished (CopyPrompt.steps said src old)
            = CopyPrompt.Ended (GenerateHashes.Raised GenerateHashes.ParseError) ->
            CopyPrompt.destination (CopyPrompt.steps said src old) = old).
  { intros said src. unfold CopyPrompt.steps.
    cbn [CopyPrompt.finished CopyPrompt.destination].
    intros [H|[H|H]]; [discriminate|..];
      injection H as H; apply run_stops_before_writing; auto. }
  unfold CopyPrompt.main.
  destruct stdin as [|answer stdin]; [reflexivity|].
  destruct (CopyPrompt.wants_copy lower (Py.strip answer)); [|apply Hsteps].
  destruct stdin as [|path stdin]; [reflexivity|].
  destruct (paths _) as [| |content]; [reflexivity..|].
  destruct w; [apply Hsteps|reflexivity].
Qed.

Lemma session_ending_early_keeps_the_destination_witness :
  CopyPrompt.destination
    (CopyPrompt.main (fun s => s) [Py.lit " y "; Py.lit ""]
                     (fun _ => CopyPrompt.NoEntry) true
                     (GenerateHashes.Parsed Samples.device_a)
                     (Some (Py.lit "previous run")))
  = Some (Py.lit "previous run").
Proof.
  apply (session_ending_early_keeps_the_destination
           (fun s => s) [Py.lit " y "; Py.lit ""]
           (fun _ => CopyPrompt.NoEntry) true
           (GenerateHashes.Parsed Samples.device_a)
           (Some (Py.lit "previous run"))).
  right. left. vm_compute. reflexivity.
Defined.

(** ** Identifiers that differ in one character *)

Lemma testbit_above n a i :
  0 <= a < 2 ^ n -> n <= i -> Z.testbit a i = false.
Proof.
  intros Ha Hi. destruct (Z.eq_dec a 0) as [->|Hne]; [apply Z.bits_0|].
  apply Z.bits_above_log2; [lia|].
  assert (0 <= n) by (destruct n; try lia; rewrite Z.pow_neg_r in Ha; lia).
  assert (Z.log2 a < n) by (apply Z.log2_lt_pow2; lia). lia.
Qed.

Lemma table_round_top_bit c :
  word32 c -> Z.testbit (Zlib.table_round c) 31 = Z.testbit c 0.
Proof.
  intros Hc. unfold Zlib.table_round.
  destruct (Z.testbit c 0) eqn:E.
  - rewrite Z.lxor_spec, Z.shiftr_spec by lia.
    rewrite (testbit_above 32 c) by (unfold word32 in Hc; lia). reflexivity.
  - rewrite Z.shiftr_spec by lia.
    apply (testbit_above 32 c); unfold word32 in Hc; lia.
Qed.

Lemma lxor_cancel_l a b c : Z.lxor a b = Z.lxor a c -> b = c.
Proof.
  intros H. apply (f_equal (Z.lxor a)) in H.
  by rewrite <- !Z.lxor_assoc, Z.lxor_nilpotent, !Z.lxor_0_l in H.
Qed.

Lemma lxor_cancel_r a b c : Z.lxor b a = Z.lxor c a -> b = c.
Proof. rewrite !(Z.lxor_comm _ a). apply lxor_cancel_l. Qed.

Lemma table_round_inj c1 c2 :
  word32 c1 -> word32 c2 ->
  Zlib.table_round c1 = Zlib.table_round c2 -> c1 = c2.
Proof.
  intros H1 H2 H.
  assert (Hb : Z.testbit c1 0 = Z.testbit c2 0).
  { rewrite <- !table_round_top_bit by assumption. by rewrite H. }
  assert (Hs : Z.shiftr c1 1 = Z.shiftr c2 1).
  { unfold Zlib.table_round in H. rewrite <- Hb in H.
    destruct (Z.testbit c1 0); [by apply lxor_cancel_l in H|exact H]. }
  rewrite (Z.div2_odd c1), (Z.div2_odd c2).
  rewrite !Z.div2_spec, <- !Z.bit0_odd, Hs, Hb. reflexivity.
Qed.

Lemma iter_table_round_inj k c1 c2 :
  word32 c1 -> word32 c2 ->
  Nat.iter k Zlib.table_round c1 = Nat.iter k Zlib.table_round c2 -> c1 = c2.
Proof.
  intros H1 H2. induction k as [|k IH]; simpl; [auto|].
  intros H. apply IH. apply table_round_inj;
    [apply iter_table_round_word32..|]; assumption.
Qed.

Lemma octet_word32 b : Py.octet b -> word32 b.
Proof. unfold Py.octet, word32. lia. Qed.

Lemma crc_byte_inj_crc c1 c2 b :
  word32 c1 -> word32 c2 -> Py.octet b ->
  Zlib.crc_byte c1 b = Zlib.crc_byte c2 b -> c1 = c2.
Proof.
  intros H1 H2 Hb. rewrite !crc_byte_rounds by exact Hb. intros H.
  apply iter_table_round_inj in H.
  - by apply lxor_cancel_r in H.
  - apply (below_pow2_lxor 32); [exact H1|by apply octet_word32].
  - apply (below_pow2_lxor 32); [exact H2|by apply octet_word32].
Qed.

Lemma crc_byte_inj_byte c x y :
  word32 c -> Py.octet x -> Py.octet y ->
  Zlib.crc_byte c x = Zlib.crc_byte c y -> x = y.
Proof.
  intros Hc Hx Hy. rewrite !crc_byte_rounds by assumption. intros H.
  apply iter_table_round_inj in H.
  - by apply lxor_cancel_l in H.
  - apply (below_pow2_lxor 32); [exact Hc|by apply octet_word32].
  - apply (below_pow2_lxor 32); [exact Hc|by apply octet_word32].
Qed.

Lemma fold_crc_byte_word32 data c :
  word32 c -> word32 (fold_left Zlib.crc_byte data c).
Proof.
  revert c. induction data as [|b data IH]; intros c Hc; simpl; [exact Hc|].
  apply IH, crc_byte_word32, Hc.
Qed.

Lemma fold_crc_byte_inj data c1 c2 :
  Forall Py.octet data -> word32 c1 -> word32 c2 ->
  fold_left Zlib.crc_byte data c1 = fold_left Zlib.crc_byte data c2 ->
  c1 = c2.
Proof.
  intros Hd. revert c1 c2.
  induction Hd as [|b data Hb _ IH]; intros c1 c2 H1 H2; simpl; [auto|].
  intros H. apply IH in H; [|by apply crc_byte_word32..].
  by apply crc_byte_inj_crc in H.
Qed.

Lemma crc32_one_byte_apart pre post x y :
  Py.octet x -> Py.octet y -> Forall Py.octet post ->
  Zlib.crc32 (pre ++ x :: post) = Zlib.crc32 (pre ++ y :: post) -> x = y.
Proof.
  intros Hx Hy Hpost. unfold Zlib.crc32. intros H.
  apply lxor_cancel_r in H. rewrite !fold_left_app in H. simpl in H.
  assert (Hw : word32 (fold_left Zlib.crc_byte pre 0xffffffff)).
  { apply fold_crc_byte_word32. unfold word32. lia. }
  apply fold_crc_byte_inj in H; [|assumption|by apply crc_byte_word32..].
  by apply crc_byte_inj_byte in H.
Qed.

(** X15: two ASCII identifiers that differ in exactly one character never
    have the same hash (and so never the same signed hash). *)
Theorem one_character_apart_never_collide :
  forall (pre post : Py.str) x y,
    Forall (fun c => 0 <= c < 128) (pre ++ x :: post) ->
    0 <= y < 128 ->
    x <> y ->
    GenerateHashes.unsigned_hash (pre ++ x :: post)
    <> GenerateHashes.unsigned_hash (pre ++ y :: post) /\
    GenerateHashes.signed_hash (pre ++ x :: post)
    <> GenerateHashes.signed_hash (pre ++ y :: post).
Proof.
  intros pre post x y Hall Hy Hxy.
  apply Forall_app in Hall as [Hpre Hxpost].
  apply Forall_cons in Hxpost as [Hx Hpost].
  assert (Hall1 : Forall (fun c => 0 <= c < 128) (pre ++ x :: post)).
  { apply Forall_app. split; [exact Hpre|by constructor]. }
  assert (Hall2 : Forall (fun c => 0 <= c < 128) (pre ++ y :: post)).
  { apply Forall_app. split; [exact Hpre|by constructor]. }
  assert (Hne : Zlib.crc32 (pre ++ x :: post) <> Zlib.crc32 (pre ++ y :: post)).
  { intros H. apply Hxy. apply crc32_one_byte_apart in H; [exact H|..].
    - unfold Py.octet. lia.
    - unfold Py.octet. lia.
    - eapply Forall_impl; [exact Hpost|]. intros c Hc.
      unfold Py.octet. simpl in Hc. lia. }
  unfold GenerateHashes.signed_hash, GenerateHashes.unsigned_hash.
  rewrite !encode_utf8_ascii by assumption. simpl.
  split; [intros H; by apply (inj Some) in H|].
  intros H. apply (inj Some) in H. apply Hne.
  apply to_signed_inj; [| |exact H].
  - pose proof (crc32_word32 (pre ++ x :: post)) as Hw. exact Hw.
  - pose proof (crc32_word32 (pre ++ y :: post)) as Hw. exact Hw.
Qed.

Lemma one_character_apart_never_collide_witness :
  GenerateHashes.unsigned_hash (Py.lit "Device" ++ 65 :: Py.lit "")
  <> GenerateHashes.unsigned_hash (Py.lit "Device" ++ 66 :: Py.lit "").
Proof.
  apply (one_character_apart_never_collide (Py.lit "Device") (Py.lit "") 65 66).
  - vm_compute. repeat constructor; discriminate.
  - lia.
  - discriminate.
Defined.

(** ** The bytes of an identifier *)

Lemma lor_high_low m k x :
  0 <= k -> 0 <= x < 2 ^ k -> Z.lor (Z.shiftl m k) x = Z.shiftl m k + x.
Proof.
  intros Hk Hx.
  assert (Hl : Z.land (Z.shiftl m k) x = 0).
  { bitwise. destruct (Z_lt_dec i k).
    - rewrite (Z.testbit_neg_r m (i - k)) by lia. reflexivity.
    - rewrite (testbit_above k x) by lia. apply andb_false_r. }
  rewrite <- Z.lxor_lor by exact Hl. symmetry. by apply Z.add_nocarry_lxor.
Qed.

Lemma continuation_byte x : Z.lor 0x80 (Z.land x 0x3F) = 128 + x mod 64.
Proof.
  change 0x3F with (Z.ones 6). rewrite Z.land_ones by lia.
  change 0x80 with (Z.shiftl 2 6). rewrite lor_high_low; [reflexivity|lia|].
  apply Z.mod_pos_bound. lia.
Qed.

Lemma utf8_encode_char_arith c bs :
  Py.utf8_encode_char c = Some bs ->
  (0 <= c < 128 /\ bs = [c]) \/
  (128 <= c < 2048 /\ bs = [192 + c / 64; 128 + c mod 64]) \/
  (2048 <= c < 65536 /\
   bs = [224 + c / 4096; 128 + (c / 64) mod 64; 128 + c mod 64]) \/
  (65536 <= c <= 0x10FFFF /\
   bs = [240 + c / 262144; 128 + (c / 4096) mod 64;
         128 + (c / 64) mod 64; 128 + c mod 64]).
Proof.
  unfold Py.utf8_encode_char.
  destruct (Z.ltb_spec c 0); [discriminate|].
  destruct (Z.ltb_spec c 0x80); [intros [= <-]; left; split; [lia|reflexivity]|].
  destruct (Z.ltb_spec c 0x800).
  { intros [= <-]. right. left. split; [lia|].
    rewrite continuation_byte, Z.shiftr_div_pow2 by lia.
    change 0xC0 with (Z.shiftl 3 6). rewrite lor_high_low; [reflexivity|lia|].
    change (2 ^ 6) with 64. split; [apply Z.div_pos; lia|].
    apply Z.div_lt_upper_bound; lia. }
  destruct ((0xD800 <=? c) && (c <=? 0xDFFF)); [discriminate|].
  destruct (Z.ltb_spec c 0x10000).
  { intros [= <-]. right. right. left. split; [lia|].
    rewrite !continuation_byte, !Z.shiftr_div_pow2 by lia.
    change 0xE0 with (Z.shiftl 14 4). rewrite lor_high_low; [reflexivity|lia|].
    change (2 ^ 12) with 4096. change (2 ^ 4) with 16.
    split; [apply Z.div_pos; lia|]. apply Z.div_lt_upper_bound; lia. }
  destruct (Z.leb_spec c 0x10FFFF); [|discriminate].
  intros [= <-]. right. right. right. split; [lia|].
  rewrite !continuation_byte, !Z.shiftr_div_pow2 by lia.
  change 0xF0 with (Z.shiftl 30 3). rewrite lor_high_low; [reflexivity|lia|].
  change (2 ^ 18) with 262144. change (2 ^ 3) with 8.
  split; [apply Z.div_pos; lia|]. apply Z.div_lt_upper_bound; lia.
Qed.

Lemma decode_encoded_char c bs rest :
  Py.utf8_encode_char c = Some bs ->
  Utf8.decode (bs ++ rest) = c :: Utf8.decode rest.
Proof.
  intros H.
  apply utf8_encode_char_arith in H
    as [[Hc ->]|[[Hc ->]|[[Hc ->]|[Hc ->]]]]; cbn [app Utf8.decode].
  - destruct (Z.ltb_spec c 128); [reflexivity|lia].
  - assert (0 <= c / 64 < 32)
      by (split; [apply Z.div_pos|apply Z.div_lt_upper_bound]; lia).
    destruct (Z.ltb_spec (192 + c / 64) 128); [lia|].
    destruct (Z.ltb_spec (192 + c / 64) 224); [|lia].
    f_equal. pose proof (Z.div_mod c 64 ltac:(lia)). lia.
  - assert (0 <= c / 4096 < 16)
      by (split; [apply Z.div_pos|apply Z.div_lt_upper_bound]; lia).
    destruct (Z.ltb_spec (224 + c / 4096) 128); [lia|].
    destruct (Z.ltb_spec (224 + c / 4096) 224); [lia|].
    destruct (Z.ltb_spec (224 + c / 4096) 240); [|lia].
    f_equal. pose proof (Z.div_mod c 64 ltac:(lia)).
    pose proof (Z.div_mod (c / 64) 64 ltac:(lia)).
    assert (c / 4096 = c / 64 / 64) by (rewrite Z.div_div by lia; reflexivity).
    lia.
  - assert (0 <= c / 262144 < 8)
      by (split; [apply Z.div_pos|apply Z.div_lt_upper_bound]; lia).
    destruct (Z.ltb_spec (240 + c / 262144) 128); [lia|].
    destruct (Z.ltb_spec (240 + c / 262144) 224); [lia|].
    destruct (Z.ltb_spec (240 + c / 262144) 240); [lia|].
    f_equal. pose proof (Z.div_mod c 64 ltac:(lia)).
    pose proof (Z.div_mod (c / 64) 64 ltac:(lia)).
    pose proof (Z.div_mod (c / 4096) 64 ltac:(lia)).
    assert (c / 4096 = c / 64 / 64) by (rewrite Z.div_div by lia; reflexivity).
    assert (c / 262144 = c / 4096 / 64) by (rewrite Z.div_div by lia; reflexivity).
    lia.
Qed.

Lemma utf8_encode_char_length c bs :
  Py.utf8_encode_char c = Some bs -> (1 <= length bs <= 4)%nat.
Proof.
  intros H. apply utf8_encode_char_arith in H
    as [[_ ->]|[[_ ->]|[[_ ->]|[_ ->]]]]; simpl; lia.
Qed.

(** X16: the bytes that are hashed determine the identifier: the UTF-8
    encoding reads back as the identifier, so two identifiers with the
    same bytes are equal and identifiers can only collide through the
    checksum; an identifier of n characters is hashed from n to 4n bytes. *)
Theorem hashed_bytes_determine_the_identifier :
  forall (s1 s2 : Py.str) bytes,
    Py.encode_utf8 s1 = Some bytes ->
    Utf8.decode bytes = s1 /\
    (Py.encode_utf8 s2 = Some bytes -> s1 = s2) /\
    (length s1 <= length bytes <= 4 * length s1)%nat.
Proof.
  assert (Hdec : forall (s : Py.str) bytes,
            Py.encode_utf8 s = Some bytes ->
            Utf8.decode bytes = s /\
            (length s <= length bytes <= 4 * length s)%nat).
  { intros s bytes H. unfold Py.encode_utf8 in H.
    apply fmap_Some in H as (bss & Hm & ->). apply mapM_Some_1 in Hm.
    induction Hm as [|c bs s' bss' Hc _ [IHd IHl]]; [simpl; split; [reflexivity|lia]|].
    cbn [concat]. split.
    - rewrite (decode_encoded_char c bs _ Hc). by rewrite IHd.
    - pose proof (utf8_encode_char_length c bs Hc).
      rewrite length_app. cbn [length]. lia. }
  intros s1 s2 bytes H1. destruct (Hdec s1 bytes H1) as [Hd Hl].
  split; [exact Hd|]. split; [|exact Hl].
  intros H2. destruct (Hdec s2 bytes H2) as [Hd2 _]. congruence.
Qed.

Lemma hashed_bytes_determine_the_identifier_witness :
  Utf8.decode [0xE2; 0x82; 0xAC; 0xF0; 0x9F; 0x98; 0x80; 0xC3; 0xA9; 0x41]
  = [0x20AC; 0x1F600; 0xE9; 0x41].
Proof.
  apply (hashed_bytes_determine_the_identifier
           [0x20AC; 0x1F600; 0xE9; 0x41] []).
  reflexivity.
Defined.
